(** * simuPOP: virtual subpopulation splitters and selectors

    A shallow embedding of [src/virtualSubPop.h] and [src/selector.h].
    Program integers ([int], [UINT], [ULONG], [SubPopID], [size_t]) are
    values of [Z]; conversions that can lose information are written out.
    Exceptions are values of [exception]; a function that can throw
    returns a [result]. *)

From Stdlib Require Import ZArith QArith Qminmax Lia.
From stdpp Require Import base list strings gmap.

Local Open Scope Z_scope.

(** ** utility.h: exceptions and the debugging macros *)

Module Utility.

(** The exception classes the two headers throw, each with its message;
    [std_out_of_range] is what [std::string::substr] throws. *)
Inductive exception : Type :=
| ValueError (msg : string)
| RuntimeError (msg : string)
| IndexError (msg : string)
| std_out_of_range.

(** Outcome of a call: a value, a thrown exception, or behaviour that
    neither C++ nor the specification defines. *)
Inductive result (A : Type) : Type :=
| Ok (a : A)
| Throw (e : exception)
| Undefined.

Arguments Ok {A} a.
Arguments Throw {A} e.
Arguments Undefined {A}.

Definition result_bind {A B : Type} (f : A → result B) (r : result A) : result B :=
  match r with
  | Ok a => f a
  | Throw e => Throw e
  | Undefined => Undefined
  end.

#[global] Instance result_ret : MRet result := λ A a, Ok a.
#[global] Instance result_mbind : MBind result := λ A B f r, result_bind f r.

(** Modelled from the spec: the macro [DBG_FAILIF] of utility.h (not among
    the sources), which reports a usage or configuration error: it throws
    the given exception when the condition holds. *)
Definition DBG_FAILIF (cond : bool) (e : exception) : result unit :=
  if cond then Throw e else Ok ().

(** Modelled from the spec: the macro [DBG_ASSERT] of utility.h (not among
    the sources): it throws the given exception unless the condition
    holds. *)
Definition DBG_ASSERT (cond : bool) (e : exception) : result unit :=
  if cond then Ok () else Throw e.

(** Whether a call threw. *)
Definition throws {A : Type} (r : result A) : Prop :=
  ∃ e, r = Throw e.

End Utility.

Import Utility.

Section simuPOP.

(** ** simuPOP_cfg.h: constants the headers use but do not declare *)

(** The sentinel of an unset (sub)population index. *)
Variable InvalidSubPopID : Z.
Hypothesis InvalidSubPopID_negative : InvalidSubPopID < 0.

(** ** virtualSubPop.h *)

(** *** class vspID *)

Record vspID : Type := mk_vspID {
  m_subPop : Z;
  m_virtualSubPop : Z
}.

(** [vspID(const vectori & subPop)] *)
Definition vspID_from_vectori (subPop : list Z) : result vspID :=
  DBG_FAILIF (bool_decide (2 < length subPop)%nat)
    (ValueError "VSP should be specified as a subPop and virtualSubPop ID pair") ≫= λ _,
  mret {|
    m_subPop :=
      match subPop !! 0%nat with
      | Some sp => if bool_decide (0 ≤ sp) then sp else InvalidSubPopID
      | None => InvalidSubPopID
      end;
    m_virtualSubPop :=
      match subPop !! 1%nat with
      | Some vsp => if bool_decide (0 ≤ vsp) then vsp else InvalidSubPopID
      | None => InvalidSubPopID
      end
  |}.

(** [vspID(SubPopID subPop, SubPopID virtualSubPop)] *)
Definition vspID_new (subPop virtualSubPop : Z) : vspID :=
  {| m_subPop := if bool_decide (subPop < 0) then InvalidSubPopID else subPop;
     m_virtualSubPop :=
       if bool_decide (virtualSubPop < 0) then InvalidSubPopID else virtualSubPop |}.

(** [vspID()]: both default arguments. *)
Definition vspID_default : vspID := vspID_new InvalidSubPopID InvalidSubPopID.

(** [operator==] *)
Definition vspID_eq (lhs rhs : vspID) : bool :=
  bool_decide (m_subPop lhs = m_subPop rhs)
  && bool_decide (m_virtualSubPop lhs = m_virtualSubPop rhs).

Definition subPop (v : vspID) : Z := m_subPop v.
Definition virtualSubPop (v : vspID) : Z := m_virtualSubPop v.
Definition valid (v : vspID) : bool := negb (bool_decide (m_subPop v = InvalidSubPopID)).
Definition isVirtual (v : vspID) : bool :=
  negb (bool_decide (m_virtualSubPop v = InvalidSubPopID)).

(** *** class subPopList *)

(** The two fields of the class; its constructors are only declared in
    the header. Sizes and indices, [size_t] and [unsigned int] in the
    source, are natural numbers. *)
Record subPopList : Type := mk_subPopList {
  m_subPops : list vspID;
  m_allAvail : bool
}.

(** [allAvail()] *)
Definition allAvail (l : subPopList) : bool := m_allAvail l.

(** [empty()] *)
Definition subPopList_empty (l : subPopList) : bool :=
  bool_decide (length (m_subPops l) = 0%nat).

(** [size()] *)
Definition subPopList_size (l : subPopList) : nat := length (m_subPops l).

(** [operator[](unsigned int idx)]: the check, then [m_subPops[idx]], which
    C++ defines only within the vector. *)
Definition subPopList_at (l : subPopList) (idx : nat) : result vspID :=
  DBG_FAILIF (bool_decide (length (m_subPops l) ≤ idx)%nat)
    (IndexError "Index out of range.") ≫= λ _,
  match m_subPops l !! idx with
  | Some v => Ok v
  | None => Undefined
  end.

(** [push_back(subPop)] *)
Definition subPopList_push_back (l : subPopList) (v : vspID) : subPopList :=
  {| m_subPops := m_subPops l ++ [v]; m_allAvail := m_allAvail l |}.

(** [contains(subPop)]: [std::find] with [operator==] of [vspID]. *)
Definition subPopList_contains (l : subPopList) (v : vspID) : bool :=
  existsb (λ e, vspID_eq e v) (m_subPops l).

(** [overlap(subPop)]: some entry names the subpopulation. *)
Definition subPopList_overlap (l : subPopList) (sp : Z) : bool :=
  existsb (λ e, bool_decide (subPop e = sp)) (m_subPops l).

(** *** simuPOP_cfg.h: the unsigned integer type *)

(** The largest value of [UINT] ([unsigned int]); the C standard promises
    at least 16 bits. *)
Variable UINT_MAX : Z.
Hypothesis UINT_MAX_minimum : 65535 ≤ UINT_MAX.

(** Conversion of an integer to [UINT]: the value modulo [UINT_MAX + 1]. *)
Definition to_UINT (z : Z) : Z := z `mod` (UINT_MAX + 1).

(** *** population.h, individual.h: what the splitters read and write *)

Inductive Sex : Type := MALE | FEMALE.

#[local] Instance Sex_eq_dec : EqDecision Sex.
Proof. solve_decision. Defined.

(** Modelled from the spec: the individual (individual.h is not among the
    sources), reduced to the sex, the affection flag and the visibility
    flag that splitter activation toggles. *)
Record individual : Type := mk_individual {
  ind_sex : Sex;
  ind_affected : bool;
  ind_visible : bool
}.

Definition setVisible (visible : bool) (i : individual) : individual :=
  {| ind_sex := ind_sex i; ind_affected := ind_affected i; ind_visible := visible |}.

(** Modelled from the spec: the population (population.h is not among the
    sources) as its subpopulations in storage order, each the list of its
    individuals in storage order. *)
Abbreviation population := (list (list individual)) (only parsing).

(** [pop.ind(ind, subPop)]: individual [ind] of subpopulation [subPop]. *)
Definition pop_ind (pop : population) (ind subPop : Z) : option individual :=
  if bool_decide (0 ≤ subPop ∧ 0 ≤ ind)
  then pop !! Z.to_nat subPop ≫= λ inds, inds !! Z.to_nat ind
  else None.

(** Every individual of subpopulation [subPop] is flagged visible. *)
Definition all_visible (pop : population) (subPop : Z) : Prop :=
  ∀ ind i, pop_ind pop ind subPop = Some i → ind_visible i = true.

(** *** class vspSplitter *)

(** A splitter behind a [vspSplitter *]: the fields of the base class and
    the virtual member functions this development calls. *)
Record vspSplitter : Type := mk_vspSplitter {
  m_names : list string;
  m_activated : Z;
  numVirtualSubPop : Z;
  contains : population → Z → vspID → bool
}.

Definition set_activated (subPop : Z) (s : vspSplitter) : vspSplitter :=
  {| m_names := m_names s; m_activated := subPop;
     numVirtualSubPop := numVirtualSubPop s; contains := contains s |}.

(** [activatedSubPop()] *)
Definition activatedSubPop (s : vspSplitter) : Z := m_activated s.

(** Modelled from the spec: [activate] of the splitter classes (declared
    pure virtual in the header; the overriding bodies are in
    virtualSubPop.cpp, which is not among the sources). It flags every
    individual of [subPop] visible when the VSP contains it and invisible
    otherwise, and records [subPop] as activated. *)
Definition activate (s : vspSplitter) (pop : population) (subPop virtualSubPop : Z)
    : vspSplitter * population :=
  (set_activated subPop s,
   if bool_decide (0 ≤ subPop)
   then alter
          (imap (λ ind i,
             setVisible (contains s pop (Z.of_nat ind) (vspID_new subPop virtualSubPop)) i))
          (Z.to_nat subPop) pop
   else pop).

(** [deactivate(SubPopID subPop)]. The function receives no population. *)
Definition deactivate (s : vspSplitter) (subPop : Z) : result vspSplitter :=
  DBG_FAILIF (bool_decide (subPop ≠ m_activated s))
    (RuntimeError "Deactivate non-activated virtual subpopulation.") ≫= λ _,
  mret (set_activated InvalidSubPopID s).

(** A caller's [activate] immediately followed by [deactivate] of the
    same subpopulation: the splitter and the population afterwards. *)
Definition activate_then_deactivate (s : vspSplitter) (pop : population)
    (subPop virtualSubPop : Z) : result (vspSplitter * population) :=
  let '(s1, pop1) := activate s pop subPop virtualSubPop in
  deactivate s1 subPop ≫= λ s2,
  mret (s2, pop1).

(** *** class sexSplitter, class affectionSplitter *)

(** Modelled from the spec: [sexSplitter::contains] (body in
    virtualSubPop.cpp): VSP 0 holds the males, VSP 1 the females. *)
Definition sexSplitter_contains (pop : population) (ind : Z) (vsp : vspID) : bool :=
  match pop_ind pop ind (subPop vsp) with
  | Some i =>
      if bool_decide (virtualSubPop vsp = 0)
      then bool_decide (ind_sex i = MALE)
      else bool_decide (ind_sex i = FEMALE)
  | None => false
  end.

(** [sexSplitter(names)]; [numVirtualSubPop()] returns 2. *)
Definition sexSplitter (names : list string) : vspSplitter :=
  {| m_names := names; m_activated := InvalidSubPopID;
     numVirtualSubPop := 2; contains := sexSplitter_contains |}.

(** Modelled from the spec: [affectionSplitter::contains] (body in
    virtualSubPop.cpp): VSP 0 holds the unaffected, VSP 1 the affected. *)
Definition affectionSplitter_contains (pop : population) (ind : Z) (vsp : vspID) : bool :=
  match pop_ind pop ind (subPop vsp) with
  | Some i =>
      if bool_decide (virtualSubPop vsp = 0)
      then negb (ind_affected i)
      else ind_affected i
  | None => false
  end.

(** [affectionSplitter(names)]; [numVirtualSubPop()] returns 2. *)
Definition affectionSplitter (names : list string) : vspSplitter :=
  {| m_names := names; m_activated := InvalidSubPopID;
     numVirtualSubPop := 2; contains := affectionSplitter_contains |}.

(** The VSP counts of a list of splitters, their sum and their product. *)
Definition vsp_counts (splitters : list vspSplitter) : list Z :=
  numVirtualSubPop <$> splitters.

Definition sumZ (l : list Z) : Z := foldr Z.add 0 l.
Definition prodZ (l : list Z) : Z := foldr Z.mul 1 l.

(** *** class combinedSplitter *)

(** [vspPair] is [std::pair<UINT, UINT>]: a child splitter and one of its
    VSPs; [vspList] is [vector<vspPair>]. *)
Abbreviation vspPair := (Z * Z)%type (only parsing).
Abbreviation vspList := (list (Z * Z)) (only parsing).

Record combinedSplitter : Type := mk_combinedSplitter {
  combined_names : list string;
  combined_activated : Z;
  combined_splitters : list vspSplitter;
  m_vspMap : list vspList
}.

(** Modelled from the spec: part of the constructor of [combinedSplitter]:
    the VSPs of child [i], which defines [count] of them, one entry each. *)
Definition child_vsps (i : nat) (count : Z) : list vspList :=
  (λ j : nat, [(Z.of_nat i, Z.of_nat j)]) <$> seq 0 (Z.to_nat count).

(** Modelled from the spec: part of the constructor of [combinedSplitter]:
    the children's VSPs, concatenated in the order of the children. *)
Definition original_vsps (splitters : list vspSplitter) : list vspList :=
  mjoin (imap (λ i s, child_vsps i (numVirtualSubPop s)) splitters).

(** Modelled from the spec: part of the constructor of [combinedSplitter]:
    the child VSPs behind the original flattened index [k]. The
    specification does not say what an index that is no original one
    does. *)
Definition original_vsp (originals : list vspList) (k : Z) : result vspList :=
  if bool_decide (0 ≤ k)
  then match originals !! Z.to_nat k with
       | Some members => Ok members
       | None => Undefined
       end
  else Undefined.

(** Modelled from the spec: part of the constructor of [combinedSplitter]:
    the child VSPs of one union group, whose members are original
    flattened indices. *)
Fixpoint union_vsp (originals : list vspList) (group : list Z) : result vspList :=
  match group with
  | [] => mret []
  | k :: rest =>
      original_vsp originals k ≫= λ members,
      union_vsp originals rest ≫= λ more,
      mret (members ++ more)
  end.

(** Modelled from the spec: part of the constructor of [combinedSplitter]:
    one more VSP for each group of [vspMap]. *)
Fixpoint union_vsps (originals : list vspList) (vspMap : list (list Z))
    : result (list vspList) :=
  match vspMap with
  | [] => mret []
  | group :: rest =>
      union_vsp originals group ≫= λ u,
      union_vsps originals rest ≫= λ us,
      mret (u :: us)
  end.

(** Modelled from the spec: the constructor of [combinedSplitter] (body in
    virtualSubPop.cpp, which is not among the sources). The children's VSPs
    are concatenated in order; each group of [vspMap] lists original
    flattened indices and defines one more VSP, their union, appended
    after all the originals. *)
Definition combinedSplitter_new (splitters : list vspSplitter)
    (vspMap : list (list Z)) (names : list string) : result combinedSplitter :=
  let originals := original_vsps splitters in
  union_vsps originals vspMap ≫= λ unions,
  mret {| combined_names := names; combined_activated := InvalidSubPopID;
          combined_splitters := splitters;
          m_vspMap := originals ++ unions |}.

(** [numVirtualSubPop()]: [m_vspMap.size()], returned as a [UINT]. *)
Definition combinedSplitter_numVirtualSubPop (cs : combinedSplitter) : Z :=
  to_UINT (Z.of_nat (length (m_vspMap cs))).

(** The call [m_splitters[p.first]->contains(pop, ind, vspID(subPop, p.second))]
    for one entry [p] of a [vspList]. *)
Definition member_contains (splitters : list vspSplitter)
    (pop : population) (ind subPop : Z) (p : vspPair) : bool :=
  match splitters !! Z.to_nat p.1 with
  | Some s => contains s pop ind (vspID_new subPop p.2)
  | None => false
  end.

(** Modelled from the spec: [combinedSplitter::contains] (body in
    virtualSubPop.cpp): the individual belongs to the VSP when one of the
    child VSPs listed for it in [m_vspMap] contains the individual. The
    specification gives no result for a VSP index that is out of range;
    [false] stands for it here. *)
Definition combinedSplitter_contains (cs : combinedSplitter)
    (pop : population) (ind : Z) (vsp : vspID) : bool :=
  if bool_decide (0 ≤ virtualSubPop vsp)
  then
    match m_vspMap cs !! Z.to_nat (virtualSubPop vsp) with
    | Some members =>
        existsb (member_contains (combined_splitters cs) pop ind (subPop vsp)) members
    | None => false
    end
  else false.

(** A combined splitter behind a [vspSplitter *]. *)
Definition combinedSplitter_upcast (cs : combinedSplitter) : vspSplitter :=
  {| m_names := combined_names cs; m_activated := combined_activated cs;
     numVirtualSubPop := combinedSplitter_numVirtualSubPop cs;
     contains := combinedSplitter_contains cs |}.

(** *** class productSplitter *)

Record productSplitter : Type := mk_productSplitter {
  product_names : list string;
  product_activated : Z;
  product_splitters : list vspSplitter;
  m_numVSP : Z
}.

(** Modelled from the spec: the constructor of [productSplitter] (body in
    virtualSubPop.cpp): the VSP spaces of the children are cross-multiplied,
    so [m_numVSP] is the product of their VSP counts. *)
Definition productSplitter_new (splitters : list vspSplitter) (names : list string)
    : productSplitter :=
  {| product_names := names; product_activated := InvalidSubPopID;
     product_splitters := splitters;
     m_numVSP := prodZ (vsp_counts splitters) |}.

(** [numVirtualSubPop()]: the [int] field [m_numVSP], returned as a [UINT]. *)
Definition productSplitter_numVirtualSubPop (ps : productSplitter) : Z :=
  to_UINT (m_numVSP ps).

(** Modelled from the spec: the loop of [productSplitter::getVSPs] over the
    children from the last to the first: the child-local indices found
    and what is left of the index. *)
Fixpoint getVSPs_loop (counts : list Z) (idx : Z) : list Z * Z :=
  match counts with
  | [] => ([], idx)
  | c :: rest =>
      let '(res, idx') := getVSPs_loop rest idx in
      ((idx' `mod` c) :: res, idx' `div` c)
  end.

(** Modelled from the spec: [productSplitter::getVSPs] (declared in the
    header, body in virtualSubPop.cpp): the mixed-radix decomposition of a
    flattened VSP index over the children's VSP counts, one child-local
    index per child, the first child varying slowest. *)
Definition getVSPs (ps : productSplitter) (vsp : Z) : list Z :=
  (getVSPs_loop (vsp_counts (product_splitters ps)) vsp).1.

(** Modelled from the spec: [productSplitter::contains] (body in
    virtualSubPop.cpp): the individual must be contained in the decomposed
    VSP of every child. The specification gives no result for a VSP index
    that is out of range. *)
Definition productSplitter_contains (ps : productSplitter)
    (pop : population) (ind : Z) (vsp : vspID) : bool :=
  forallb (λ sd : vspSplitter * Z,
             contains sd.1 pop ind (vspID_new (subPop vsp) sd.2))
          (zip (product_splitters ps) (getVSPs ps (virtualSubPop vsp))).

(** A product splitter behind a [vspSplitter *]. *)
Definition productSplitter_upcast (ps : productSplitter) : vspSplitter :=
  {| m_names := product_names ps; m_activated := product_activated ps;
     numVirtualSubPop := productSplitter_numVirtualSubPop ps;
     contains := productSplitter_contains ps |}.

(** The flattened index of child-local indices [ds] over the counts:
    the first child has the largest weight. *)
Fixpoint mixed_radix (counts ds : list Z) : Z :=
  match counts, ds with
  | _ :: rest, d :: ds' => d * prodZ rest + mixed_radix rest ds'
  | _, _ => 0
  end.

(** Child-local indices, each within its child's count. *)
Definition child_indices (counts ds : list Z) : Prop :=
  Forall2 (λ d c, 0 ≤ d < c) ds counts.

(** The flattened index of VSP [j] of child [i]: the VSPs of the children
    before it come first. *)
Definition flat_index (splitters : list vspSplitter) (i : nat) (j : Z) : Z :=
  sumZ (vsp_counts (take i splitters)) + j.

(** ** selector.h *)

(** A Python object handed to [pySelector]: whether [PyCallable_Check]
    accepts it. *)
Record PyObject : Type := mk_PyObject { PyCallable_Check : bool }.

(** The operators behind a [baseOperator *]: the classes of selector.h,
    each with the fields its constructor stores, and [otherOperator] for
    an operator of any other class, known by what its [__repr__] returns.
    The scheduling fields of [baseOperator] and [m_subPops], which the
    functions below never read, are left out. *)
#[warnings="-register-all"]
Inductive baseOperator : Type :=
| selector
| mapSelector (m_loci : list Z) (m_dict : gmap string Q) (m_phase : bool)
| maSelector (m_loci : list Z) (m_fitness : list Q) (m_wildtype : list Z)
| mlSelector (m_selectors : list baseOperator) (m_mode : Z)
| pySelector (m_loci : list Z) (m_func : PyObject)
| otherOperator (repr : string).

Definition SEL_None : Z := 0.
Definition SEL_Multiplicative : Z := 1.
Definition SEL_Additive : Z := 2.
Definition SEL_Heterogeneity : Z := 3.

(** [__repr__()] of each class. *)
Definition __repr__ (op : baseOperator) : string :=
  match op with
  | selector => "<simuPOP::selector>"
  | mapSelector _ _ _ => "<simuPOP::selector::map selector>"
  | maSelector _ _ _ => "<simuPOP::selector::multiple-alleles selector>"
  | mlSelector _ _ => "<simuPOP::selector::multiple-loci selector>"
  | pySelector _ _ => "<simuPOP::selector::python selector>"
  | otherOperator repr => repr
  end.

(** [clone()] of each class: a copy, except for [mlSelector], whose
    [clone] throws. An operator of another class returns a copy, as
    [clone] is meant to. *)
Definition clone (op : baseOperator) : result baseOperator :=
  match op with
  | mlSelector _ _ => Throw (ValueError "Multi-loci selector can not be nested.")
  | _ => Ok op
  end.

(** [std::string::substr(pos, n)]: it throws when [pos] is past the end
    and stops at the end of the string. *)
Definition substr (s : string) (pos n : nat) : result string :=
  if bool_decide (String.length s < pos)%nat
  then Throw std_out_of_range
  else Ok (String.substring pos n s).

(** An operator of one of the selector classes other than [mlSelector]. *)
Definition plain_selector (op : baseOperator) : Prop :=
  match op with
  | selector | mapSelector _ _ _ | maSelector _ _ _ | pySelector _ _ => True
  | mlSelector _ _ | otherOperator _ => False
  end.

Definition is_mlSelector (op : baseOperator) : Prop :=
  match op with
  | mlSelector _ _ => True
  | _ => False
  end.

(** What the loop of the constructor of [mlSelector] lets through: the
    eight characters of [__repr__] from offset 10 read [selector], and the
    operator is no [mlSelector]. *)
Definition accepted_operator (op : baseOperator) : Prop :=
  substr (__repr__ op) 10 8 = Ok "selector" ∧ ¬ is_mlSelector op.

(** [pow] on [double] arguments that are whole numbers: a [double] holds
    every whole number up to 2^53, so the power is exact up to there; the
    rounded powers beyond are left out of the model. *)
Definition pow_double (base exponent : Z) : result Z :=
  if bool_decide (base ^ exponent ≤ 2 ^ 53) then Ok (base ^ exponent) else Undefined.

(** [static_cast<UINT>] of a [double] that is a whole number: C++ defines
    it only when the value fits a [UINT]. *)
Definition static_cast_UINT (x : Z) : result Z :=
  if bool_decide (0 ≤ x ≤ UINT_MAX) then Ok x else Undefined.

(** The constructor of [maSelector]. *)
Definition maSelector_new (loci : list Z) (fitness : list Q) (wildtype : list Z)
    : result baseOperator :=
  pow_double 3 (Z.of_nat (length loci)) ≫= λ p,
  static_cast_UINT p ≫= λ n,
  DBG_ASSERT (bool_decide (Z.of_nat (length fitness) = n))
    (ValueError "Please specify fitness for each combination of genotype.") ≫= λ _,
  mret (maSelector loci fitness wildtype).

(** The loop of the constructor of [mlSelector]: each operator is checked
    by its [__repr__] and its clone is pushed onto [m_selectors]. *)
Fixpoint mlSelector_push (selectors m_selectors : list baseOperator)
    : result (list baseOperator) :=
  match selectors with
  | [] => mret m_selectors
  | s :: rest =>
      substr (__repr__ s) 10 8 ≫= λ tag,
      DBG_ASSERT (bool_decide (tag = "selector"))
        (ValueError ("Expecting a list of fitness calculator. Given " +:+ __repr__ s)) ≫= λ _,
      clone s ≫= λ c,
      mlSelector_push rest (m_selectors ++ [c])
  end.

(** The constructor of [mlSelector]. *)
Definition mlSelector_new (selectors : list baseOperator) (mode : Z)
    : result baseOperator :=
  DBG_FAILIF (bool_decide (length selectors = 0%nat))
    (ValueError "Please specify at least one selector.") ≫= λ _,
  mlSelector_push selectors [] ≫= λ m_selectors,
  mret (mlSelector m_selectors mode).

(** The constructor of [pySelector]. *)
Definition pySelector_new (loci : list Z) (func : PyObject) : result baseOperator :=
  if negb (PyCallable_Check func)
  then Throw (ValueError "Passed variable is not a callable python function.")
  else
    DBG_FAILIF (bool_decide (length loci = 0%nat))
      (ValueError "Please specify susceptibility loci") ≫= λ _,
    mret (pySelector loci func).

(** [indFitness] of [mapSelector], [maSelector] and [pySelector]: the
    bodies are in selector.cpp, which is not among the sources. *)
Variable leaf_indFitness : baseOperator → individual → Z → result Q.

(** Modelled from the spec: [mlSelector::indFitness] (declared in
    selector.h, body in selector.cpp, which is not among the sources), over
    exact rationals in place of [double]. [eval] is the virtual call of a
    child's [indFitness]; the children are evaluated in order and an error
    of a child ends the loop and propagates. *)
Section mlSelector_indFitness.

Variable eval : baseOperator → result Q.

(** Modelled from the spec: the multiplicative mode, the product of the
    children's values. *)
Fixpoint multiplicative_loop (sels : list baseOperator) (fit : Q) : result Q :=
  match sels with
  | [] => mret fit
  | s :: rest => eval s ≫= λ f, multiplicative_loop rest (fit * f)%Q
  end.

(** Modelled from the spec: the additive mode, the sum of [s = 1 - f] over
    the children. *)
Fixpoint additive_loop (sels : list baseOperator) (total : Q) : result Q :=
  match sels with
  | [] => mret total
  | s :: rest => eval s ≫= λ f, additive_loop rest (total + (1 - f))%Q
  end.

(** Modelled from the spec: the two modes the specification defines, the
    additive one returning [max(0, 1 - sum)]. *)
Definition mlSelector_indFitness (m_selectors : list baseOperator) (m_mode : Z)
    : result Q :=
  if bool_decide (m_mode = SEL_Multiplicative) then
    multiplicative_loop m_selectors 1%Q
  else if bool_decide (m_mode = SEL_Additive) then
    additive_loop m_selectors 0%Q ≫= λ total,
    mret (Qmax 0 (1 - total))
  else Undefined.

End mlSelector_indFitness.

(** [indFitness(ind, gen)], dispatched on the class of the operator.
    [selector::indFitness] throws; an operator that is no selector has no
    [indFitness]. *)
Fixpoint indFitness (op : baseOperator) (ind : individual) (gen : Z) : result Q :=
  match op with
  | selector => Throw (ValueError "This selector is not supposed to be called directly")
  | mlSelector m_selectors m_mode =>
      mlSelector_indFitness (λ s, indFitness s ind gen) m_selectors m_mode
  | otherOperator _ => Undefined
  | _ => leaf_indFitness op ind gen
  end.

(** What the children of a composite return for one individual and one
    generation. *)
Definition children_return (sels : list baseOperator) (ind : individual) (gen : Z)
    (fs : list Q) : Prop :=
  Forall2 (λ s f, indFitness s ind gen = Ok f) sels fs.

Definition sumQ (l : list Q) : Q := foldr Qplus 0%Q l.
Definition prodQ (l : list Q) : Q := foldr Qmult 1%Q l.

(** A [vectori] entry that is present and not negative. *)
Definition supplied (l : list Z) (i : nat) : Prop :=
  ∃ x, l !! i = Some x ∧ 0 ≤ x.

(** ** Sample values *)

Definition a_male : individual := mk_individual MALE false true.
Definition a_female : individual := mk_individual FEMALE true true.

(** A splitter with three VSPs, by the index of the individual modulo 3. *)
Definition three_way_splitter : vspSplitter :=
  mk_vspSplitter [] InvalidSubPopID 3
    (λ _ ind vsp, bool_decide (ind `mod` 3 = virtualSubPop vsp)).

(** A stand-in for the [indFitness] of the leaf selectors: the first entry
    of the fitness table of a [maSelector]. *)
Definition first_entry (op : baseOperator) (_ : individual) (_ : Z) : result Q :=
  match op with
  | maSelector _ (f :: _) _ => Ok f
  | _ => Undefined
  end.

(** ** Properties *)

(** Arithmetic that does not rest on the configuration. *)
Ltac forget_cfg :=
  try clear InvalidSubPopID_negative; try clear UINT_MAX_minimum.

(** *** vspID *)

Lemma normalized_set (x : Z) :
  (if bool_decide (x < 0) then InvalidSubPopID else x) ≠ InvalidSubPopID ↔ 0 ≤ x.
Proof using InvalidSubPopID_negative. case_bool_decide; lia. Qed.

Lemma entry_set (l : list Z) (i : nat) :
  match l !! i with
  | Some x => if bool_decide (0 ≤ x) then x else InvalidSubPopID
  | None => InvalidSubPopID
  end ≠ InvalidSubPopID ↔ supplied l i.
Proof using InvalidSubPopID_negative.
  unfold supplied. destruct (l !! i) as [x|] eqn:E.
  - case_bool_decide; split.
    + intros _. by exists x.
    + lia.
    + done.
    + intros (y & [= <-] & ?). lia.
  - split; [done | by intros (y & ? & _)].
Qed.

Lemma negb_bool_decide_true (P : Prop) `{!Decision P} :
  negb (bool_decide P) = true ↔ ¬ P.
Proof. rewrite negb_true_iff, bool_decide_eq_false. done. Qed.

(** C9. Both constructors of [vspID] replace a negative subpopulation or
    virtual subpopulation index by [InvalidSubPopID] and keep every other
    value; hence [valid()] holds exactly when the subpopulation index was
    supplied as a value that is not negative, and [isVirtual()] exactly
    when the virtual subpopulation index was. The constructor from a list
    throws a [ValueError] for more than two elements, and for a shorter
    list an element that is absent counts as not supplied. *)
Theorem vspID_constructors_normalize :
  (∀ sp vsp : Z,
     let v := vspID_new sp vsp in
     (sp < 0 → subPop v = InvalidSubPopID) ∧
     (vsp < 0 → virtualSubPop v = InvalidSubPopID) ∧
     (0 ≤ sp → subPop v = sp) ∧
     (0 ≤ vsp → virtualSubPop v = vsp) ∧
     (valid v = true ↔ 0 ≤ sp) ∧
     (isVirtual v = true ↔ 0 ≤ vsp)) ∧
  (∀ l : list Z,
     (2 < length l)%nat →
     vspID_from_vectori l =
       Throw (ValueError "VSP should be specified as a subPop and virtualSubPop ID pair")) ∧
  (∀ l : list Z,
     (length l ≤ 2)%nat →
     ∃ v, vspID_from_vectori l = Ok v ∧
          (¬ supplied l 0 → subPop v = InvalidSubPopID) ∧
          (¬ supplied l 1 → virtualSubPop v = InvalidSubPopID) ∧
          (∀ sp, l !! 0%nat = Some sp → 0 ≤ sp → subPop v = sp) ∧
          (∀ vsp, l !! 1%nat = Some vsp → 0 ≤ vsp → virtualSubPop v = vsp) ∧
          (valid v = true ↔ supplied l 0) ∧
          (isVirtual v = true ↔ supplied l 1)) ∧
  valid vspID_default = false ∧ isVirtual vspID_default = false.
Proof using InvalidSubPopID_negative.
  split; [| split; [| split; [| split]]].
  - intros sp vsp v. subst v.
    unfold valid, isVirtual, subPop, virtualSubPop. cbn.
    rewrite !negb_bool_decide_true, !normalized_set.
    repeat split; try done; intros ?.
    + by rewrite bool_decide_eq_true_2.
    + by rewrite bool_decide_eq_true_2.
    + rewrite bool_decide_eq_false_2; [done | lia].
    + rewrite bool_decide_eq_false_2; [done | lia].
  - intros l Hl. unfold vspID_from_vectori.
    by rewrite bool_decide_eq_true_2.
  - intros l Hl. unfold vspID_from_vectori.
    rewrite bool_decide_eq_false_2 by lia. cbn.
    eexists. split; [reflexivity |].
    unfold valid, isVirtual, subPop, virtualSubPop. cbn.
    rewrite !negb_bool_decide_true, !entry_set.
    split; [| split; [| split; [| split]]]; try done.
    + intros Hn. apply dec_stable. by rewrite entry_set.
    + intros Hn. apply dec_stable. by rewrite entry_set.
    + intros sp -> ?. by rewrite bool_decide_eq_true_2.
    + intros vsp -> ?. by rewrite bool_decide_eq_true_2.
  - unfold valid, vspID_default. cbn.
    rewrite (bool_decide_eq_true_2 (InvalidSubPopID < 0)) by done.
    by rewrite bool_decide_eq_true_2.
  - unfold isVirtual, vspID_default. cbn.
    rewrite (bool_decide_eq_true_2 (InvalidSubPopID < 0)) by done.
    by rewrite bool_decide_eq_true_2.
Qed.

(** *** vspSplitter: activation and deactivation *)

Lemma throws_Throw {A : Type} (e : exception) : throws (@Throw A e).
Proof. by exists e. Qed.

Lemma not_throws_Ok {A : Type} (a : A) : ¬ throws (Ok a).
Proof. by intros [e ?]. Qed.

Lemma deactivate_mismatch (s : vspSplitter) (sp : Z) :
  sp ≠ m_activated s →
  deactivate s sp = Throw (RuntimeError "Deactivate non-activated virtual subpopulation.").
Proof using Type.
  intros Hne. unfold deactivate. by rewrite bool_decide_eq_true_2.
Qed.

Lemma deactivate_match (s : vspSplitter) :
  deactivate s (m_activated s) = Ok (set_activated InvalidSubPopID s).
Proof using Type.
  unfold deactivate. by rewrite bool_decide_eq_false_2 by (by intros []).
Qed.

Lemma pop_ind_activate (s : vspSplitter) (pop : population) (sp vsp ind : Z) :
  pop_ind (activate s pop sp vsp).2 ind sp =
    setVisible (contains s pop ind (vspID_new sp vsp)) <$> pop_ind pop ind sp.
Proof using Type.
  unfold pop_ind, activate. cbn.
  destruct (decide (0 ≤ sp)) as [Hsp|Hsp].
  - rewrite (bool_decide_eq_true_2 (0 ≤ sp)) by done.
    destruct (decide (0 ≤ ind)) as [Hind|Hind].
    + rewrite bool_decide_eq_true_2 by done.
      rewrite list_lookup_alter_eq.
      destruct (pop !! Z.to_nat sp) as [inds|]; cbn; [| done].
      rewrite list_lookup_imap.
      destruct (inds !! Z.to_nat ind) as [i|]; cbn; [| done].
      by rewrite Z2Nat.id.
    + rewrite bool_decide_eq_false_2 by (intros []; lia). done.
  - rewrite bool_decide_eq_false_2 by (intros []; lia). done.
Qed.

(** C4. [deactivate(subPop)] throws, and then a [RuntimeError], exactly
    when [subPop] differs from the recorded activated subpopulation; when
    it matches, the call returns and the record is [InvalidSubPopID]
    again, nothing else of the splitter changing. The record holds one
    subpopulation index: after [activate(pop, sp0, vsp)] it is [sp0], so
    only [deactivate(sp0)] is accepted. *)
Theorem deactivate_requires_activated_subPop (s : vspSplitter) (sp : Z) :
  (throws (deactivate s sp) ↔ sp ≠ activatedSubPop s) ∧
  (sp ≠ activatedSubPop s →
   deactivate s sp =
     Throw (RuntimeError "Deactivate non-activated virtual subpopulation.")) ∧
  (sp = activatedSubPop s →
   ∃ s', deactivate s sp = Ok s' ∧
         activatedSubPop s' = InvalidSubPopID ∧
         m_names s' = m_names s ∧
         numVirtualSubPop s' = numVirtualSubPop s ∧
         contains s' = contains s) ∧
  (∀ (pop : population) (sp0 vsp : Z),
     let s1 := (activate s pop sp0 vsp).1 in
     activatedSubPop s1 = sp0 ∧
     (throws (deactivate s1 sp) ↔ sp ≠ sp0) ∧
     ∃ s2, deactivate s1 sp0 = Ok s2 ∧ activatedSubPop s2 = InvalidSubPopID).
Proof using Type.
  assert (Hiff : ∀ s0 sp', throws (deactivate s0 sp') ↔ sp' ≠ m_activated s0).
  { intros s0 sp'. destruct (decide (sp' = m_activated s0)) as [->|Hne].
    - rewrite deactivate_match. split; [| done]. intros H. by apply not_throws_Ok in H.
    - rewrite deactivate_mismatch by done. split; [done |]. intros _. apply throws_Throw. }
  unfold activatedSubPop. split; [apply Hiff |]. split; [apply deactivate_mismatch |].
  split.
  - intros ->. eexists. split; [apply deactivate_match |]. done.
  - intros pop sp0 vsp. cbn. split; [done |]. split.
    + rewrite Hiff. done.
    + exists (set_activated InvalidSubPopID (set_activated sp0 s)).
      split; [| reflexivity].
      exact (deactivate_match (set_activated sp0 s)).
Qed.

(** C3, what the source does. [activate] followed by [deactivate] of the
    same subpopulation returns, with the record of the activated
    subpopulation cleared, and leaves every visibility flag as [activate]
    set it, for [deactivate] has no access to the population: an
    individual of the subpopulation is flagged visible afterwards exactly
    when the VSP contains it. For the sex splitter and a subpopulation of
    a male and a female, after [activate(pop, 0, 0)] and [deactivate(0)]
    the female is still flagged invisible. *)
Theorem deactivate_keeps_visibility_flags :
  (∀ (s : vspSplitter) (pop : population) (sp vsp : Z),
     activate_then_deactivate s pop sp vsp =
       Ok (set_activated InvalidSubPopID s, (activate s pop sp vsp).2) ∧
     ∀ ind, pop_ind (activate s pop sp vsp).2 ind sp =
              setVisible (contains s pop ind (vspID_new sp vsp)) <$> pop_ind pop ind sp) ∧
  (let male := mk_individual MALE false true in
   let female := mk_individual FEMALE false true in
   ∃ s2, activate_then_deactivate (sexSplitter []) [[male; female]] 0 0 =
           Ok (s2, [[male; setVisible false female]]) ∧
         activatedSubPop s2 = InvalidSubPopID ∧
         pop_ind [[male; setVisible false female]] 1 0 = Some (setVisible false female) ∧
         ¬ all_visible [[male; setVisible false female]] 0).
Proof using Type.
  split.
  - intros s pop sp vsp. split; [| intros ind; apply pop_ind_activate].
    unfold activate_then_deactivate, activate.
    pose proof (deactivate_match (set_activated sp s)) as H. cbn in H. by rewrite H.
  - cbn zeta. eexists. split; [| split; [| split]].
    + unfold activate_then_deactivate, activate.
      pose proof (deactivate_match (set_activated 0 (sexSplitter []))) as H.
      cbn in H. rewrite H. reflexivity.
    + reflexivity.
    + reflexivity.
    + intros Hall. specialize (Hall 1 _ eq_refl). discriminate Hall.
Qed.

(** *** productSplitter: the mixed-radix index *)

Lemma to_UINT_small (z : Z) : 0 ≤ z ≤ UINT_MAX → to_UINT z = z.
Proof using Type. forget_cfg. intros H. unfold to_UINT. apply Z.mod_small. lia. Qed.

Lemma prodZ_nonneg (counts : list Z) :
  Forall (λ c, 0 ≤ c) counts → 0 ≤ prodZ counts.
Proof using Type.
  forget_cfg.
  induction 1 as [|c counts Hc _ IH]; cbn; [lia |].
  fold (prodZ counts). nia.
Qed.

Lemma prodZ_pos_inv (counts : list Z) :
  Forall (λ c, 0 ≤ c) counts → 0 < prodZ counts → Forall (λ c, 0 < c) counts.
Proof using Type.
  forget_cfg.
  induction 1 as [|c counts Hc Hcs IH]; cbn; [constructor |].
  fold (prodZ counts). intros Hpos.
  pose proof (prodZ_nonneg counts Hcs).
  constructor; [nia |]. apply IH. nia.
Qed.

Lemma mixed_radix_bound (counts ds : list Z) :
  child_indices counts ds → 0 ≤ mixed_radix counts ds < prodZ counts.
Proof using Type.
  forget_cfg.
  unfold child_indices. induction 1 as [|d c ds counts Hd _ IH]; cbn; [lia |].
  fold (prodZ counts). nia.
Qed.

Lemma mixed_radix_inj (counts ds ds' : list Z) :
  child_indices counts ds → child_indices counts ds' →
  mixed_radix counts ds = mixed_radix counts ds' → ds = ds'.
Proof using Type.
  forget_cfg.
  unfold child_indices. intros H. revert ds'.
  induction H as [|d c ds counts Hd Hds IH]; intros ds' H' Heq.
  - by apply Forall2_nil_inv_r in H'.
  - apply Forall2_cons_inv_r in H' as (d' & ds2 & Hd' & Hds' & ->).
    cbn in Heq. fold (prodZ counts) in Heq.
    pose proof (mixed_radix_bound counts ds Hds).
    pose proof (mixed_radix_bound counts ds2 Hds').
    assert (d = d') as -> by nia.
    f_equal. apply IH; [done | lia].
Qed.

(** What the loop of [getVSPs] leaves when the counts are positive. *)
Lemma getVSPs_loop_spec (counts : list Z) (idx : Z) :
  Forall (λ c, 0 < c) counts → 0 ≤ idx →
  child_indices counts (getVSPs_loop counts idx).1 ∧
  0 ≤ (getVSPs_loop counts idx).2 ∧
  idx = (getVSPs_loop counts idx).2 * prodZ counts
        + mixed_radix counts (getVSPs_loop counts idx).1.
Proof using Type.
  forget_cfg.
  unfold child_indices. intros H Hidx.
  induction H as [|c counts Hc _ IH]; cbn.
  - split; [constructor | lia].
  - destruct (getVSPs_loop counts idx) as [res q]. cbn in *.
    destruct IH as (Hres & Hq & Heq). fold (prodZ counts).
    pose proof (Z.mod_pos_bound q c Hc).
    pose proof (Z.div_mod q c ltac:(lia)).
    split; [by constructor |]. split; [by apply Z.div_pos |].
    rewrite Heq at 1. nia.
Qed.

Lemma getVSPs_loop_in_range (counts : list Z) (v : Z) :
  Forall (λ c, 0 ≤ c) counts → 0 ≤ v < prodZ counts →
  child_indices counts (getVSPs_loop counts v).1 ∧
  mixed_radix counts (getVSPs_loop counts v).1 = v.
Proof using Type.
  forget_cfg.
  intros Hcounts Hv.
  assert (Hpos : Forall (λ c, 0 < c) counts) by (apply prodZ_pos_inv; [done | lia]).
  destruct (getVSPs_loop_spec counts v Hpos ltac:(lia)) as (Hds & Hq & Heq).
  split; [done |].
  pose proof (mixed_radix_bound _ _ Hds).
  assert ((getVSPs_loop counts v).2 = 0) as Hz by nia.
  rewrite Hz in Heq. lia.
Qed.

Lemma forallb_zip {A B : Type} (f : A * B → bool) (l : list A) (k : list B) :
  length l = length k →
  forallb f (zip l k) = true ↔ Forall2 (λ a b, f (a, b) = true) l k.
Proof using Type.
  forget_cfg.
  revert k. induction l as [|a l IH]; intros [|b k] Hlen; try done; cbn.
  rewrite andb_true_iff, IH by (cbn in Hlen; lia).
  by rewrite Forall2_cons.
Qed.

(** C1. The product splitter built from child splitters with VSP counts
    [c_1 .. c_n] (their product fitting a [UINT]) has
    [numVirtualSubPop() = c_1 * .. * c_n]. For every flattened index [v]
    below the product, [getVSPs(v)] holds one child-local index per child,
    each below its child's count, and is the only such list whose
    mixed-radix value, the first child weighing most, is [v]; and
    [contains(pop, ind, v)] holds exactly when every child contains the
    individual in its decomposed VSP. For counts 2 and 3 the number of
    VSPs is 6 and index 4 decomposes into (1, 1); for the sex and the
    affection splitter, index 1 is the male affected. *)
Theorem productSplitter_mixed_radix :
  (∀ (splitters : list vspSplitter) (names : list string),
     let ps := productSplitter_new splitters names in
     let counts := vsp_counts splitters in
     Forall (λ c, 0 ≤ c) counts →
     prodZ counts ≤ UINT_MAX →
     productSplitter_numVirtualSubPop ps = prodZ counts ∧
     ∀ v, 0 ≤ v < prodZ counts →
       child_indices counts (getVSPs ps v) ∧
       mixed_radix counts (getVSPs ps v) = v ∧
       (∀ ds, child_indices counts ds → mixed_radix counts ds = v →
              ds = getVSPs ps v) ∧
       ∀ (pop : population) (ind : Z) (vsp : vspID),
         virtualSubPop vsp = v →
         (productSplitter_contains ps pop ind vsp = true ↔
          Forall2 (λ s d, contains s pop ind (vspID_new (subPop vsp) d) = true)
                  splitters (getVSPs ps v))) ∧
  (∀ (s1 s2 : vspSplitter) (names : list string),
     numVirtualSubPop s1 = 2 → numVirtualSubPop s2 = 3 →
     productSplitter_numVirtualSubPop (productSplitter_new [s1; s2] names) = 6 ∧
     getVSPs (productSplitter_new [s1; s2] names) 4 = [1; 1]) ∧
  (let ps := productSplitter_new [sexSplitter []; affectionSplitter []] [] in
   productSplitter_numVirtualSubPop ps = 4 ∧
   getVSPs ps <$> [0; 1; 2; 3] = [[0; 0]; [0; 1]; [1; 0]; [1; 1]]).
Proof using UINT_MAX_minimum.
  split; [| split].
  - intros splitters names ps counts Hcounts Hmax.
    pose proof (prodZ_nonneg counts Hcounts) as Hnn.
    split; [by apply to_UINT_small |].
    intros v Hv. unfold getVSPs. cbn. fold counts.
    destruct (getVSPs_loop_in_range counts v Hcounts Hv) as [Hds Hval].
    split; [done |]. split; [done |]. split.
    + intros ds Hds' Hval'. apply (mixed_radix_inj counts); [done.. |].
      etrans; [exact Hval' | symmetry; exact Hval].
    + intros pop ind vsp Hvsp. unfold productSplitter_contains, getVSPs. cbn.
      fold counts. rewrite Hvsp. apply forallb_zip.
      apply Forall2_length in Hds. unfold counts, vsp_counts in Hds.
      rewrite Hds. by rewrite length_fmap.
  - intros s1 s2 names H1 H2.
    unfold productSplitter_numVirtualSubPop, getVSPs. cbn. rewrite H1, H2. cbn.
    split; [apply to_UINT_small; lia | done].
  - cbn. split; [apply to_UINT_small; lia | done].
Qed.

(** *** combinedSplitter: the concatenated index *)

Lemma sumZ_nonneg (counts : list Z) :
  Forall (λ c, 0 ≤ c) counts → 0 ≤ sumZ counts.
Proof using Type.
  forget_cfg. induction 1 as [|c counts Hc _ IH]; cbn; [lia |].
  fold (sumZ counts). lia.
Qed.

Lemma vsp_counts_cons (s : vspSplitter) (splitters : list vspSplitter) :
  vsp_counts (s :: splitters) = numVirtualSubPop s :: vsp_counts splitters.
Proof using Type. done. Qed.

Lemma sumZ_cons (c : Z) (counts : list Z) : sumZ (c :: counts) = c + sumZ counts.
Proof using Type. done. Qed.

Lemma length_child_vsps (i : nat) (count : Z) :
  length (child_vsps i count) = Z.to_nat count.
Proof using Type. unfold child_vsps. by rewrite length_fmap, length_seq. Qed.

Lemma lookup_child_vsps (i : nat) (count j : Z) :
  0 ≤ j < count → child_vsps i count !! Z.to_nat j = Some [(Z.of_nat i, j)].
Proof using Type.
  forget_cfg. intros Hj. unfold child_vsps.
  rewrite list_lookup_fmap, lookup_seq_lt by lia. cbn.
  by rewrite Z2Nat.id by lia.
Qed.

(** The children's VSPs when the first child is numbered [n]. *)
Lemma originals_from_cons (n : nat) (s : vspSplitter) (splitters : list vspSplitter) :
  mjoin (imap (λ i s, child_vsps (n + i) (numVirtualSubPop s)) (s :: splitters)) =
  child_vsps n (numVirtualSubPop s)
    ++ mjoin (imap (λ i s, child_vsps (S n + i) (numVirtualSubPop s)) splitters).
Proof using Type.
  cbn. rewrite Nat.add_0_r. f_equal. f_equal. apply imap_ext.
  intros i x _. cbn. f_equal. lia.
Qed.

Lemma originals_from_length (n : nat) (splitters : list vspSplitter) :
  Forall (λ c, 0 ≤ c) (vsp_counts splitters) →
  length (mjoin (imap (λ i s, child_vsps (n + i) (numVirtualSubPop s)) splitters)) =
  Z.to_nat (sumZ (vsp_counts splitters)).
Proof using Type.
  forget_cfg. revert n. induction splitters as [|s splitters IH]; intros n H; [done |].
  rewrite originals_from_cons, length_app, length_child_vsps.
  rewrite vsp_counts_cons in *. apply Forall_cons in H as [Hs H].
  rewrite IH, sumZ_cons by done.
  pose proof (sumZ_nonneg _ H). lia.
Qed.

Lemma flat_index_bound (splitters : list vspSplitter) (i : nat) (s : vspSplitter) (j : Z) :
  Forall (λ c, 0 ≤ c) (vsp_counts splitters) →
  splitters !! i = Some s → 0 ≤ j < numVirtualSubPop s →
  0 ≤ flat_index splitters i j < sumZ (vsp_counts splitters).
Proof using Type.
  forget_cfg. unfold flat_index. revert i.
  induction splitters as [|s0 splitters IH]; intros i H Hi Hj; [done |].
  rewrite vsp_counts_cons in *. apply Forall_cons in H as [Hs0 H].
  pose proof (sumZ_nonneg _ H). rewrite sumZ_cons.
  destruct i as [|i].
  - injection Hi as ->. rewrite take_0. cbn. lia.
  - specialize (IH i H Hi Hj).
    rewrite firstn_cons, vsp_counts_cons, sumZ_cons. lia.
Qed.

Lemma flat_index_S (s0 : vspSplitter) (splitters : list vspSplitter) (i : nat) (j : Z) :
  flat_index (s0 :: splitters) (S i) j = numVirtualSubPop s0 + flat_index splitters i j.
Proof using Type.
  forget_cfg. unfold flat_index.
  rewrite firstn_cons, vsp_counts_cons, sumZ_cons. lia.
Qed.

Lemma flat_index_0 (splitters : list vspSplitter) (j : Z) :
  flat_index splitters 0 j = j.
Proof using Type. unfold flat_index. by rewrite take_0. Qed.

Lemma originals_from_lookup (n : nat) (splitters : list vspSplitter)
    (i : nat) (s : vspSplitter) (j : Z) :
  Forall (λ c, 0 ≤ c) (vsp_counts splitters) →
  splitters !! i = Some s → 0 ≤ j < numVirtualSubPop s →
  mjoin (imap (λ i s, child_vsps (n + i) (numVirtualSubPop s)) splitters)
    !! Z.to_nat (flat_index splitters i j) = Some [(Z.of_nat (n + i), j)].
Proof using Type.
  forget_cfg. revert n i.
  induction splitters as [|s0 splitters IH]; intros n i H Hi Hj; [done |].
  rewrite vsp_counts_cons in H. apply Forall_cons in H as [Hs0 H].
  rewrite originals_from_cons. destruct i as [|i].
  - injection Hi as ->. rewrite flat_index_0.
    rewrite lookup_app_l by (rewrite length_child_vsps; lia).
    rewrite lookup_child_vsps by done. by rewrite Nat.add_0_r.
  - cbn in Hi.
    pose proof (flat_index_bound splitters i s j H Hi Hj) as Hb.
    rewrite flat_index_S.
    rewrite lookup_app_r by (rewrite length_child_vsps; lia).
    rewrite length_child_vsps.
    replace (Z.to_nat (numVirtualSubPop s0 + flat_index splitters i j)
             - Z.to_nat (numVirtualSubPop s0))%nat
      with (Z.to_nat (flat_index splitters i j)) by lia.
    etrans; [exact (IH (S n) i H Hi Hj) |]. do 3 f_equal. lia.
Qed.

(** Every original index is the flat index of a VSP of one child. *)
Lemma flat_index_locate (splitters : list vspSplitter) (k : Z) :
  Forall (λ c, 0 ≤ c) (vsp_counts splitters) →
  0 ≤ k < sumZ (vsp_counts splitters) →
  ∃ i s j, splitters !! i = Some s ∧ 0 ≤ j < numVirtualSubPop s ∧
           k = flat_index splitters i j.
Proof using Type.
  forget_cfg. revert k.
  induction splitters as [|s0 splitters IH]; intros k H Hk; [cbn in Hk; lia |].
  rewrite vsp_counts_cons in *. apply Forall_cons in H as [Hs0 H].
  rewrite sumZ_cons in Hk.
  destruct (decide (k < numVirtualSubPop s0)) as [Hlt|Hge].
  - exists 0%nat, s0, k. rewrite flat_index_0. split; [done |]. lia.
  - destruct (IH (k - numVirtualSubPop s0) H ltac:(lia)) as (i & s & j & Hi & Hj & Heq).
    exists (S i), s, j. split; [done |]. split; [done |].
    rewrite flat_index_S. lia.
Qed.

Lemma union_vsp_returns (originals : list vspList) (group : list Z) :
  Forall (λ k, 0 ≤ k < Z.of_nat (length originals)) group →
  ∃ u, union_vsp originals group = Ok u ∧
       ∀ p, p ∈ u ↔ ∃ k members, k ∈ group ∧ originals !! Z.to_nat k = Some members
                                 ∧ p ∈ members.
Proof using Type.
  forget_cfg. induction 1 as [|k group Hk _ (u & IHu & IH)]; cbn.
  - exists []. split; [done |]. intros p. split; [by intros ?%elem_of_nil |].
    by intros (k & m & ?%elem_of_nil & _).
  - unfold original_vsp. rewrite bool_decide_eq_true_2 by lia.
    destruct (lookup_lt_is_Some_2 originals (Z.to_nat k) ltac:(lia)) as [m Hm].
    rewrite Hm. cbn. rewrite IHu. cbn. eexists. split; [done |].
    intros p. rewrite elem_of_app, IH. split.
    + intros [Hp | (k' & m' & Hk' & Hm' & Hp)].
      * exists k, m. split; [left |]. done.
      * exists k', m'. split; [by right | done].
    + intros (k' & m' & [->|Hk']%elem_of_cons & Hm' & Hp).
      * left. congruence.
      * right. by exists k', m'.
Qed.

Lemma union_vsps_returns (originals : list vspList) (vspMap : list (list Z)) :
  Forall (Forall (λ k, 0 ≤ k < Z.of_nat (length originals))) vspMap →
  ∃ us, union_vsps originals vspMap = Ok us ∧
        Forall2 (λ group u, union_vsp originals group = Ok u) vspMap us.
Proof using Type.
  induction 1 as [|group vspMap Hgroup _ (us & IHus & IH)]; cbn.
  - by exists [].
  - destruct (union_vsp_returns originals group Hgroup) as (u & Hu & _).
    rewrite Hu. cbn. rewrite IHus. cbn. eexists. split; [done |]. by constructor.
Qed.

Lemma combinedSplitter_contains_members (cs : combinedSplitter) (pop : population)
    (ind : Z) (vsp : vspID) (members : vspList) :
  0 ≤ virtualSubPop vsp →
  m_vspMap cs !! Z.to_nat (virtualSubPop vsp) = Some members →
  combinedSplitter_contains cs pop ind vsp = true ↔
  ∃ p, p ∈ members ∧
       member_contains (combined_splitters cs) pop ind (subPop vsp) p = true.
Proof using Type.
  intros Hv Hm. unfold combinedSplitter_contains.
  rewrite bool_decide_eq_true_2 by done. rewrite Hm, existsb_exists.
  by setoid_rewrite list_elem_of_In.
Qed.

Lemma vspID_new_virtualSubPop (sp v : Z) :
  0 ≤ v → virtualSubPop (vspID_new sp v) = v.
Proof using Type.
  forget_cfg. intros Hv. cbn. by rewrite bool_decide_eq_false_2 by lia.
Qed.

(** C2. For child splitters with VSP counts [c_1 .. c_n] and union
    groups of original flattened indices (everything fitting a [UINT]),
    the constructor of the combined splitter returns a splitter whose
    [numVirtualSubPop()] is the sum of the counts plus the number of
    groups, and the sum alone without groups. VSP [j] of child [i] has
    the flattened index [c_1 + .. + c_(i-1) + j]: [m_vspMap] holds the one
    pair [(i, j)] there and [contains] is the child's [contains] for its
    VSP [j]; every index below the sum is such an index. The VSP of group
    [g] follows all the originals, at index [sum + g], and contains an
    individual exactly when a member VSP of the group contains it. *)
Theorem combinedSplitter_concatenates
    (splitters : list vspSplitter) (vspMap : list (list Z)) (names : list string) :
  let total := sumZ (vsp_counts splitters) in
  Forall (λ c, 0 ≤ c) (vsp_counts splitters) →
  total + Z.of_nat (length vspMap) ≤ UINT_MAX →
  Forall (Forall (λ k, 0 ≤ k < total)) vspMap →
  ∃ cs, combinedSplitter_new splitters vspMap names = Ok cs ∧
    combinedSplitter_numVirtualSubPop cs = total + Z.of_nat (length vspMap) ∧
    (vspMap = [] → combinedSplitter_numVirtualSubPop cs = total) ∧
    (∀ (i : nat) (s : vspSplitter) (j : Z),
       splitters !! i = Some s → 0 ≤ j < numVirtualSubPop s →
       0 ≤ flat_index splitters i j < total ∧
       m_vspMap cs !! Z.to_nat (flat_index splitters i j) = Some [(Z.of_nat i, j)] ∧
       ∀ (pop : population) (ind : Z) (vsp : vspID),
         virtualSubPop vsp = flat_index splitters i j →
         combinedSplitter_contains cs pop ind vsp =
           contains s pop ind (vspID_new (subPop vsp) j)) ∧
    (∀ k, 0 ≤ k < total →
       ∃ i s j, splitters !! i = Some s ∧ 0 ≤ j < numVirtualSubPop s ∧
                k = flat_index splitters i j) ∧
    (∀ (g : nat) (group : list Z),
       vspMap !! g = Some group →
       ∀ (pop : population) (ind sp : Z),
         combinedSplitter_contains cs pop ind (vspID_new sp (total + Z.of_nat g)) = true ↔
         ∃ k, k ∈ group ∧
              combinedSplitter_contains cs pop ind (vspID_new sp k) = true).
Proof using Type.
  forget_cfg. intros total Hcounts Hmax Hgroups.
  pose proof (sumZ_nonneg _ Hcounts) as Htotal. fold total in Htotal.
  pose proof (originals_from_length 0 splitters Hcounts) as Hlen.
  change (length (original_vsps splitters) = Z.to_nat total) in Hlen.
  assert (Hgroups' : Forall (Forall (λ k,
            0 ≤ k < Z.of_nat (length (original_vsps splitters)))) vspMap).
  { rewrite Hlen, Z2Nat.id by done. exact Hgroups. }
  destruct (union_vsps_returns _ _ Hgroups') as (us & Hus & Hunion).
  pose proof (Forall2_length _ _ _ Hunion) as Hlen_us.
  unfold combinedSplitter_new. rewrite Hus. cbn. eexists. split; [reflexivity |].
  unfold combinedSplitter_numVirtualSubPop. cbn.
  assert (Hnum : to_UINT (Z.of_nat (length (original_vsps splitters ++ us))) =
                 total + Z.of_nat (length vspMap)).
  { rewrite length_app, Hlen, <- Hlen_us.
    rewrite to_UINT_small; lia. }
  (* the entry of an original index *)
  assert (Horig : ∀ k members, 0 ≤ k < total →
            original_vsps splitters !! Z.to_nat k = Some members →
            (original_vsps splitters ++ us) !! Z.to_nat k = Some members).
  { intros k m Hk Hm. rewrite lookup_app_l by lia. done. }
  split; [exact Hnum |]. split; [| split; [| split]].
  - intros ->. rewrite Hnum. cbn. lia.
  - intros i s j Hi Hj.
    pose proof (flat_index_bound splitters i s j Hcounts Hi Hj) as Hb.
    pose proof (originals_from_lookup 0 splitters i s j Hcounts Hi Hj) as Hlook.
    change (original_vsps splitters !! Z.to_nat (flat_index splitters i j) =
            Some [(Z.of_nat i, j)]) in Hlook.
    split; [exact Hb |]. split; [by apply Horig |].
    intros pop ind vsp Hvsp. unfold combinedSplitter_contains. cbn.
    rewrite Hvsp, bool_decide_eq_true_2 by lia.
    rewrite (Horig _ _ Hb Hlook). cbn.
    unfold member_contains. cbn. rewrite Nat2Z.id, Hi. apply orb_false_r.
  - intros k Hk. by apply flat_index_locate.
  - intros g group Hg pop ind sp.
    destruct (Forall2_lookup_l _ _ _ _ _ Hunion Hg) as (u & Hu & Hgroup).
    rewrite Forall_lookup in Hgroups'. specialize (Hgroups' g group Hg).
    destruct (union_vsp_returns _ _ Hgroups') as (u' & Hu' & Hmem).
    assert (u' = u) as -> by congruence.
    rewrite combinedSplitter_contains_members with (members := u); cycle 1.
    { rewrite vspID_new_virtualSubPop; lia. }
    { rewrite vspID_new_virtualSubPop by lia. cbn.
      rewrite lookup_app_r by lia. rewrite <- Hu. f_equal. lia. }
    cbn [combined_splitters]. rewrite Forall_forall in Hgroups'. split.
    + intros (p & Hp & Hc). apply Hmem in Hp as (k & m & Hk & Hm & Hp).
      exists k. split; [done |].
      assert (0 ≤ k < total) as Hkr by (specialize (Hgroups' k Hk); lia).
      rewrite combinedSplitter_contains_members with (members := m); cycle 1.
      { rewrite vspID_new_virtualSubPop; lia. }
      { rewrite vspID_new_virtualSubPop by lia. cbn. by apply Horig. }
      by exists p.
    + intros (k & Hk & Hc).
      assert (0 ≤ k < total) as Hkr by (specialize (Hgroups' k Hk); lia).
      destruct (lookup_lt_is_Some_2 (original_vsps splitters) (Z.to_nat k)
                  ltac:(lia)) as [m Hm].
      rewrite combinedSplitter_contains_members with (members := m) in Hc; cycle 1.
      { rewrite vspID_new_virtualSubPop; lia. }
      { rewrite vspID_new_virtualSubPop by lia. cbn. by apply Horig. }
      destruct Hc as (p & Hp & Hc). exists p. split; [| done].
      apply Hmem. by exists k, m.
Qed.

(** *** Selectors: construction and cloning *)

Lemma plain_selector_tag (op : baseOperator) :
  plain_selector op → substr (__repr__ op) 10 8 = Ok "selector".
Proof using Type. destruct op; cbn; intros H; by try destruct H. Qed.

Lemma mlSelector_tag (op : baseOperator) :
  is_mlSelector op → substr (__repr__ op) 10 8 = Ok "selector".
Proof using Type. destruct op; cbn; intros H; by try destruct H. Qed.

Lemma clone_plain_selector (op : baseOperator) :
  plain_selector op → clone op = Ok op.
Proof using Type. destruct op; cbn; intros H; by try destruct H. Qed.

Lemma clone_mlSelector_throws (op : baseOperator) :
  is_mlSelector op →
  clone op = Throw (ValueError "Multi-loci selector can not be nested.").
Proof using Type. destruct op; cbn; intros H; by try destruct H. Qed.

Lemma substr_defined (s : string) (pos n : nat) :
  substr s pos n ≠ Undefined.
Proof using Type. unfold substr. by case_bool_decide. Qed.

Lemma clone_defined (op : baseOperator) : clone op ≠ Undefined.
Proof using Type. by destruct op. Qed.

(** The loop over plain selectors pushes a copy of each, in order. *)
Lemma mlSelector_push_plain (sels acc : list baseOperator) :
  Forall plain_selector sels → mlSelector_push sels acc = Ok (acc ++ sels).
Proof using Type.
  intros H. revert acc. induction H as [|op sels Hop _ IH]; intros acc; cbn.
  - by rewrite app_nil_r.
  - rewrite plain_selector_tag by done. cbn.
    rewrite clone_plain_selector by done. cbn.
    rewrite IH. by rewrite <- app_assoc.
Qed.

(** The loop stops with an exception at an [mlSelector], if not before. *)
Lemma mlSelector_push_nested (sels acc : list baseOperator) :
  Exists is_mlSelector sels → throws (mlSelector_push sels acc).
Proof using Type.
  intros H. revert acc. induction sels as [|op sels IH]; intros acc.
  - by apply Exists_nil in H.
  - cbn. destruct (substr (__repr__ op) 10 8) as [tag|e|] eqn:Etag; cbn.
    + case_bool_decide as Htag; cbn; [| apply throws_Throw].
      destruct (clone op) as [c|e|] eqn:Eclone; cbn.
      * apply IH. apply Exists_cons in H as [Hml|H]; [| done].
        rewrite clone_mlSelector_throws in Eclone by done. discriminate.
      * apply throws_Throw.
      * by apply clone_defined in Eclone.
    + apply throws_Throw.
    + by apply substr_defined in Etag.
Qed.

(** C8. The constructor of [mlSelector] throws a [ValueError] for an
    empty list of selectors, and throws whenever the list holds an
    [mlSelector]: when the operators before it are selectors of the other
    classes, the exception is the [ValueError] of [mlSelector::clone].
    A list, not empty, of selectors of the other classes is accepted, and
    [m_selectors] holds a copy of each, in order. *)
Theorem mlSelector_new_forbids_nesting (mode : Z) :
  mlSelector_new [] mode = Throw (ValueError "Please specify at least one selector.") ∧
  (∀ sels : list baseOperator,
     Exists is_mlSelector sels → throws (mlSelector_new sels mode)) ∧
  (∀ (before after : list baseOperator) (ml : baseOperator),
     Forall plain_selector before → is_mlSelector ml →
     mlSelector_new (before ++ ml :: after) mode =
       Throw (ValueError "Multi-loci selector can not be nested.")) ∧
  (∀ sels : list baseOperator,
     sels ≠ [] → Forall plain_selector sels →
     mlSelector_new sels mode = Ok (mlSelector sels mode)).
Proof using Type.
  split; [done |]. split; [| split].
  - intros sels H. unfold mlSelector_new.
    destruct sels as [|op sels]; [by apply Exists_nil in H |].
    rewrite bool_decide_eq_false_2 by done. cbn -[mlSelector_push].
    destruct (mlSelector_push_nested (op :: sels) [] H) as [e ->].
    apply throws_Throw.
  - intros before after ml Hbefore Hml. unfold mlSelector_new.
    rewrite bool_decide_eq_false_2 by (rewrite length_app; cbn; lia).
    cbn -[mlSelector_push].
    assert (Hpush : ∀ acc, mlSelector_push (before ++ ml :: after) acc =
              Throw (ValueError "Multi-loci selector can not be nested.")).
    { induction Hbefore as [|op before Hop _ IH]; intros acc; cbn.
      - rewrite mlSelector_tag by done. cbn. by rewrite clone_mlSelector_throws.
      - rewrite plain_selector_tag by done. cbn.
        rewrite clone_plain_selector by done. cbn. apply IH. }
    by rewrite Hpush.
  - intros sels Hne Hplain. unfold mlSelector_new.
    rewrite bool_decide_eq_false_2 by (by destruct sels).
    cbn -[mlSelector_push]. by rewrite mlSelector_push_plain.
Qed.

(** C10. [mlSelector::clone()] throws the [ValueError] "Multi-loci
    selector can not be nested." whatever the child selectors and the
    mode, so every selector that the constructor of [mlSelector] returns
    fails to clone; [mlSelector([maSelector(...)])] is one. *)
Theorem mlSelector_clone_always_throws :
  (∀ (sels : list baseOperator) (mode : Z),
     clone (mlSelector sels mode) =
       Throw (ValueError "Multi-loci selector can not be nested.")) ∧
  (∀ (sels : list baseOperator) (mode : Z) (op : baseOperator),
     mlSelector_new sels mode = Ok op →
     clone op = Throw (ValueError "Multi-loci selector can not be nested.")) ∧
  (let child := maSelector [0] [1%Q; 1%Q; 1%Q] [0] in
   mlSelector_new [child] SEL_Multiplicative = Ok (mlSelector [child] SEL_Multiplicative) ∧
   clone (mlSelector [child] SEL_Multiplicative) =
     Throw (ValueError "Multi-loci selector can not be nested.")).
Proof using Type.
  split; [done |]. split; [| done].
  intros sels mode op. unfold mlSelector_new.
  destruct (DBG_FAILIF _ _) as [[]|e|]; cbn -[mlSelector_push]; [| done..].
  destruct (mlSelector_push sels []) as [m|e|]; cbn; [| done..].
  by intros [= <-].
Qed.

Lemma maSelector_new_in_range (loci : list Z) (fitness : list Q) (wildtype : list Z) :
  3 ^ Z.of_nat (length loci) ≤ UINT_MAX →
  3 ^ Z.of_nat (length loci) ≤ 2 ^ 53 →
  maSelector_new loci fitness wildtype =
    if bool_decide (Z.of_nat (length fitness) = 3 ^ Z.of_nat (length loci))
    then Ok (maSelector loci fitness wildtype)
    else Throw (ValueError "Please specify fitness for each combination of genotype.").
Proof using Type.
  forget_cfg. intros HUINT Hdouble.
  assert (Hpos : 0 ≤ 3 ^ Z.of_nat (length loci)) by (apply Z.pow_nonneg; lia).
  unfold maSelector_new, pow_double, static_cast_UINT.
  rewrite (bool_decide_eq_true_2 _ Hdouble). cbn.
  rewrite (bool_decide_eq_true_2 (0 ≤ 3 ^ Z.of_nat (length loci) ≤ UINT_MAX)) by done.
  cbn. by case_bool_decide.
Qed.


(** *** mlSelector: the composed fitness *)

Lemma multiplicative_loop_returns (eval : baseOperator → result Q)
    (sels : list baseOperator) (fs : list Q) (fit : Q) :
  Forall2 (λ s f, eval s = Ok f) sels fs →
  ∃ r, multiplicative_loop eval sels fit = Ok r ∧ (r == fit * prodQ fs)%Q.
Proof using Type.
  intros H. revert fit. induction H as [|s f sels fs Hs _ IH]; intros fit; cbn.
  - exists fit. split; [done |]. ring.
  - rewrite Hs. cbn. destruct (IH (fit * f)%Q) as (r & -> & Hr).
    exists r. split; [done |]. rewrite Hr. unfold prodQ. ring.
Qed.

Lemma additive_loop_returns (eval : baseOperator → result Q)
    (sels : list baseOperator) (fs : list Q) (total : Q) :
  Forall2 (λ s f, eval s = Ok f) sels fs →
  ∃ r, additive_loop eval sels total = Ok r ∧
       (r == total + sumQ ((λ f, 1 - f) <$> fs))%Q.
Proof using Type.
  intros H. revert total. induction H as [|s f sels fs Hs _ IH]; intros total; cbn.
  - exists total. split; [done |]. ring.
  - rewrite Hs. cbn. destruct (IH (total + (1 - f))%Q) as (r & -> & Hr).
    exists r. split; [done |]. rewrite Hr. unfold sumQ. ring.
Qed.

(** An error of a child ends the evaluation and is the composite's. *)
Lemma multiplicative_loop_throws (eval : baseOperator → result Q)
    (before after : list baseOperator) (s : baseOperator) (fs : list Q)
    (e : exception) (fit : Q) :
  Forall2 (λ s f, eval s = Ok f) before fs → eval s = Throw e →
  multiplicative_loop eval (before ++ s :: after) fit = Throw e.
Proof using Type.
  intros H Hs. revert fit. induction H as [|s0 f before fs Hs0 _ IH]; intros fit; cbn.
  - by rewrite Hs.
  - rewrite Hs0. cbn. apply IH.
Qed.

Lemma additive_loop_throws (eval : baseOperator → result Q)
    (before after : list baseOperator) (s : baseOperator) (fs : list Q)
    (e : exception) (total : Q) :
  Forall2 (λ s f, eval s = Ok f) before fs → eval s = Throw e →
  additive_loop eval (before ++ s :: after) total = Throw e.
Proof using Type.
  intros H Hs. revert total. induction H as [|s0 f before fs Hs0 _ IH]; intros total; cbn.
  - by rewrite Hs.
  - rewrite Hs0. cbn. apply IH.
Qed.

(** C5. In the additive mode, when the children return [f_1 .. f_n] for
    an individual and a generation, [indFitness] of the [mlSelector]
    returns [max(0, 1 - sum_i (1 - f_i))]; when a child throws after the
    children before it returned, the composite throws the same exception.
    Two children returning 7/10 and 6/10 give 3/10; with a third child
    returning 1/10 the sum of the [1 - f_i] exceeds 1 and the result is 0. *)
Theorem mlSelector_additive_fitness (ind : individual) (gen : Z) :
  (∀ (sels : list baseOperator) (fs : list Q),
     children_return sels ind gen fs →
     ∃ r, indFitness (mlSelector sels SEL_Additive) ind gen = Ok r ∧
          (r == Qmax 0 (1 - sumQ ((λ f, 1 - f) <$> fs)))%Q) ∧
  (∀ (before after : list baseOperator) (s : baseOperator) (fs : list Q) (e : exception),
     children_return before ind gen fs → indFitness s ind gen = Throw e →
     indFitness (mlSelector (before ++ s :: after) SEL_Additive) ind gen = Throw e) ∧
  (∀ s1 s2 s3 : baseOperator,
     indFitness s1 ind gen = Ok (7 # 10)%Q →
     indFitness s2 ind gen = Ok (6 # 10)%Q →
     indFitness s3 ind gen = Ok (1 # 10)%Q →
     (∃ r, indFitness (mlSelector [s1; s2] SEL_Additive) ind gen = Ok r ∧
           (r == 3 # 10)%Q) ∧
     (∃ r, indFitness (mlSelector [s1; s2; s3] SEL_Additive) ind gen = Ok r ∧
           (r == 0)%Q)).
Proof using Type.
  assert (Hgen : ∀ (sels : list baseOperator) (fs : list Q),
     children_return sels ind gen fs →
     ∃ r, indFitness (mlSelector sels SEL_Additive) ind gen = Ok r ∧
          (r == Qmax 0 (1 - sumQ ((λ f, 1 - f) <$> fs)))%Q).
  { intros sels fs H. cbn. unfold mlSelector_indFitness. cbn.
    destruct (additive_loop_returns _ sels fs 0%Q H) as (t & -> & Ht). cbn.
    eexists. split; [done |]. apply Q.max_compat; [done |]. rewrite Ht. ring. }
  split; [exact Hgen |]. split.
  - intros before after s fs e H Hs. cbn. unfold mlSelector_indFitness. cbn.
    by rewrite (additive_loop_throws _ before after s fs e 0%Q H Hs).
  - intros s1 s2 s3 H1 H2 H3. split.
    + destruct (Hgen [s1; s2] [(7 # 10)%Q; (6 # 10)%Q]) as (r & Hr & Heq).
      { by repeat constructor. }
      exists r. split; [done |]. by rewrite Heq.
    + destruct (Hgen [s1; s2; s3] [(7 # 10)%Q; (6 # 10)%Q; (1 # 10)%Q])
        as (r & Hr & Heq).
      { by repeat constructor. }
      exists r. split; [done |]. by rewrite Heq.
Qed.

(** C6. In the multiplicative mode, when the children return
    [f_1 .. f_n] for an individual and a generation, [indFitness] of the
    [mlSelector] returns their product; when a child throws after the
    children before it returned, the composite throws the same exception.
    Two children returning 8/10 and 5/10 give 4/10. *)
Theorem mlSelector_multiplicative_fitness (ind : individual) (gen : Z) :
  (∀ (sels : list baseOperator) (fs : list Q),
     children_return sels ind gen fs →
     ∃ r, indFitness (mlSelector sels SEL_Multiplicative) ind gen = Ok r ∧
          (r == prodQ fs)%Q) ∧
  (∀ (before after : list baseOperator) (s : baseOperator) (fs : list Q) (e : exception),
     children_return before ind gen fs → indFitness s ind gen = Throw e →
     indFitness (mlSelector (before ++ s :: after) SEL_Multiplicative) ind gen = Throw e) ∧
  (∀ s1 s2 : baseOperator,
     indFitness s1 ind gen = Ok (8 # 10)%Q →
     indFitness s2 ind gen = Ok (5 # 10)%Q →
     ∃ r, indFitness (mlSelector [s1; s2] SEL_Multiplicative) ind gen = Ok r ∧
          (r == 4 # 10)%Q).
Proof using Type.
  assert (Hgen : ∀ (sels : list baseOperator) (fs : list Q),
     children_return sels ind gen fs →
     ∃ r, indFitness (mlSelector sels SEL_Multiplicative) ind gen = Ok r ∧
          (r == prodQ fs)%Q).
  { intros sels fs H. cbn. unfold mlSelector_indFitness. cbn.
    destruct (multiplicative_loop_returns _ sels fs 1%Q H) as (r & -> & Hr).
    exists r. split; [done |]. rewrite Hr. ring. }
  split; [exact Hgen |]. split.
  - intros before after s fs e H Hs. cbn. unfold mlSelector_indFitness. cbn.
    by rewrite (multiplicative_loop_throws _ before after s fs e 1%Q H Hs).
  - intros s1 s2 H1 H2.
    destruct (Hgen [s1; s2] [(8 # 10)%Q; (5 # 10)%Q]) as (r & Hr & Heq).
    { by repeat constructor. }
    exists r. split; [done |]. by rewrite Heq.
Qed.

(** ** Further properties of the headers *)

(** *** vspID: equality and the two constructors *)

Lemma vspID_eq_true (a b : vspID) : vspID_eq a b = true ↔ a = b.
Proof using Type.
  destruct a as [a1 a2], b as [b1 b2]. unfold vspID_eq. cbn.
  rewrite andb_true_iff, !bool_decide_eq_true. split.
  - by intros [-> ->].
  - by intros [= -> ->].
Qed.

Lemma normalized_eq (x y : Z) :
  (if bool_decide (x < 0) then InvalidSubPopID else x) =
  (if bool_decide (y < 0) then InvalidSubPopID else y) ↔
  x = y ∨ (x < 0 ∧ y < 0).
Proof using InvalidSubPopID_negative. repeat case_bool_decide; lia. Qed.

Lemma normalized_idem (x : Z) :
  (if bool_decide ((if bool_decide (x < 0) then InvalidSubPopID else x) < 0)
   then InvalidSubPopID
   else if bool_decide (x < 0) then InvalidSubPopID else x) =
  (if bool_decide (x < 0) then InvalidSubPopID else x).
Proof using Type. forget_cfg. repeat case_bool_decide; lia. Qed.

Lemma entry_idem (o : option Z) :
  let x := match o with
           | Some x => if bool_decide (0 ≤ x) then x else InvalidSubPopID
           | None => InvalidSubPopID
           end in
  (if bool_decide (x < 0) then InvalidSubPopID else x) = x ∧
  (if bool_decide (0 ≤ x) then x else InvalidSubPopID) = x.
Proof using Type.
  forget_cfg. destruct o as [x|]; cbn; repeat case_bool_decide; lia.
Qed.

(** [operator==] of [vspID] holds exactly for equal pairs of fields. For
    identifiers built by the two-argument constructor it holds exactly
    when each index is the same or unset on both sides, so all negative
    indices are one and the same unset index. *)
Theorem vspID_eq_constructed :
  (∀ a b : vspID, vspID_eq a b = true ↔ a = b) ∧
  (∀ sp vsp sp' vsp' : Z,
     vspID_eq (vspID_new sp vsp) (vspID_new sp' vsp') = true ↔
     (sp = sp' ∨ (sp < 0 ∧ sp' < 0)) ∧ (vsp = vsp' ∨ (vsp < 0 ∧ vsp' < 0))).
Proof using InvalidSubPopID_negative.
  split; [apply vspID_eq_true |].
  intros sp vsp sp' vsp'. unfold vspID_eq, vspID_new. cbn.
  by rewrite andb_true_iff, !bool_decide_eq_true, !normalized_eq.
Qed.

(** The constructor from a list agrees with the constructor from two
    indices: a list of two elements gives [vspID(l[0], l[1])], a list of
    one element [vspID(l[0])] and the empty list [vspID()]. *)
Theorem vspID_constructors_agree :
  (∀ sp vsp : Z, vspID_from_vectori [sp; vsp] = Ok (vspID_new sp vsp)) ∧
  (∀ sp : Z, vspID_from_vectori [sp] = Ok (vspID_new sp InvalidSubPopID)) ∧
  vspID_from_vectori [] = Ok vspID_default.
Proof using Type.
  forget_cfg. unfold vspID_from_vectori, vspID_default, vspID_new.
  split; [| split]; intros;
    rewrite (bool_decide_eq_false_2 (_ < _)%nat) by (cbn; lia); cbn;
    f_equal; f_equal; repeat case_bool_decide; lia.
Qed.

(** Every [vspID] that a constructor returns is rebuilt unchanged from
    what its accessors [subPop()] and [virtualSubPop()] return, by either
    constructor. *)
Theorem vspID_rebuilt_from_accessors :
  (∀ sp vsp : Z,
     let v := vspID_new sp vsp in
     vspID_new (subPop v) (virtualSubPop v) = v ∧
     vspID_from_vectori [subPop v; virtualSubPop v] = Ok v) ∧
  (∀ (l : list Z) (v : vspID),
     vspID_from_vectori l = Ok v →
     vspID_new (subPop v) (virtualSubPop v) = v ∧
     vspID_from_vectori [subPop v; virtualSubPop v] = Ok v).
Proof using Type.
  split.
  - intros sp vsp. unfold vspID_from_vectori, vspID_new, subPop, virtualSubPop. cbn.
    split.
    + by rewrite !normalized_idem.
    + rewrite (bool_decide_eq_false_2 (_ < _)%nat) by (cbn; lia). cbn.
      f_equal; f_equal; forget_cfg; repeat case_bool_decide; lia.
  - intros l v. unfold vspID_from_vectori.
    destruct (DBG_FAILIF _ _) as [[]|e|]; cbn; [| done..].
    intros [= <-]. unfold vspID_new, subPop, virtualSubPop. cbn.
    destruct (entry_idem (l !! 0%nat)) as [H0 H0'].
    destruct (entry_idem (l !! 1%nat)) as [H1 H1']. cbn zeta in *.
    split; [by rewrite H0, H1 | by rewrite H0', H1'].
Qed.

(** *** subPopList *)

Lemma subPopList_at_lookup (l : subPopList) (idx : nat) (e : vspID) :
  subPopList_at l idx = Ok e ↔ m_subPops l !! idx = Some e.
Proof using Type.
  forget_cfg. unfold subPopList_at. case_bool_decide as Hle; cbn.
  - rewrite lookup_ge_None_2 by lia. done.
  - destruct (m_subPops l !! idx) as [v|] eqn:E.
    + split; congruence.
    + apply lookup_ge_None in E. lia.
Qed.

(** [operator[]] of a [subPopList] throws an [IndexError] from [size()]
    on and returns the entry below it; [push_back] adds its argument at
    index [size()], keeps every entry before it, makes the list one
    longer and not empty, and leaves [allAvail()] as it was. *)
Theorem subPopList_index_push_back (l : subPopList) (v : vspID) :
  (∀ idx, (subPopList_size l ≤ idx)%nat →
     subPopList_at l idx = Throw (IndexError "Index out of range.")) ∧
  (∀ idx, (idx < subPopList_size l)%nat →
     ∃ e, subPopList_at l idx = Ok e ∧
          subPopList_at (subPopList_push_back l v) idx = Ok e) ∧
  subPopList_at (subPopList_push_back l v) (subPopList_size l) = Ok v ∧
  subPopList_size (subPopList_push_back l v) = S (subPopList_size l) ∧
  subPopList_empty (subPopList_push_back l v) = false ∧
  (subPopList_empty l = true ↔ subPopList_size l = 0%nat) ∧
  allAvail (subPopList_push_back l v) = allAvail l.
Proof using Type.
  forget_cfg. unfold subPopList_size. split; [| split; [| split; [| split; [| split]]]].
  - intros idx Hidx. unfold subPopList_at. by rewrite bool_decide_eq_true_2.
  - intros idx Hidx.
    destruct (lookup_lt_is_Some_2 (m_subPops l) idx Hidx) as [e He].
    exists e. rewrite !subPopList_at_lookup. split; [done |].
    cbn. by rewrite lookup_app_l.
  - rewrite subPopList_at_lookup. cbn.
    by rewrite lookup_app_r, Nat.sub_diag.
  - cbn. rewrite length_app. cbn. lia.
  - unfold subPopList_empty. cbn. rewrite length_app. cbn.
    apply bool_decide_eq_false_2. lia.
  - split; [| done]. unfold subPopList_empty. by rewrite bool_decide_eq_true.
Qed.

Lemma existsb_lookup {A : Type} (f : A → bool) (l : list A) :
  existsb f l = true ↔ ∃ idx e, l !! idx = Some e ∧ f e = true.
Proof using Type.
  rewrite existsb_exists. split.
  - intros (e & [idx Hidx]%list_elem_of_In%list_elem_of_lookup & He). by exists idx, e.
  - intros (idx & e & Hidx & He). exists e. split; [| done].
    apply list_elem_of_In, list_elem_of_lookup. by exists idx.
Qed.

(** [contains] of a [subPopList] holds exactly when some entry equals the
    identifier, and [overlap] exactly when some entry names the
    subpopulation, whatever its virtual subpopulation; so an identifier
    the list contains always overlaps. After [push_back(v)] both hold for
    what they held before and for [v]. *)
Theorem subPopList_contains_overlap (l : subPopList) :
  (∀ v, subPopList_contains l v = true ↔
        ∃ idx, subPopList_at l idx = Ok v) ∧
  (∀ sp, subPopList_overlap l sp = true ↔
         ∃ idx e, subPopList_at l idx = Ok e ∧ subPop e = sp) ∧
  (∀ v, subPopList_contains l v = true → subPopList_overlap l (subPop v) = true) ∧
  (∀ v w, subPopList_contains (subPopList_push_back l v) w =
          subPopList_contains l w || vspID_eq v w) ∧
  (∀ v sp, subPopList_overlap (subPopList_push_back l v) sp =
           subPopList_overlap l sp || bool_decide (subPop v = sp)) ∧
  (subPopList_empty l = true →
   ∀ v sp, subPopList_contains l v = false ∧ subPopList_overlap l sp = false).
Proof using Type.
  forget_cfg.
  assert (Hc : ∀ v, subPopList_contains l v = true ↔
                    ∃ idx, subPopList_at l idx = Ok v).
  { intros v. unfold subPopList_contains. rewrite existsb_lookup. split.
    - intros (idx & e & Hidx & ->%vspID_eq_true). exists idx.
      by apply subPopList_at_lookup.
    - intros (idx & Hidx%subPopList_at_lookup). exists idx, v.
      split; [done | by apply vspID_eq_true]. }
  assert (Ho : ∀ sp, subPopList_overlap l sp = true ↔
                     ∃ idx e, subPopList_at l idx = Ok e ∧ subPop e = sp).
  { intros sp. unfold subPopList_overlap. rewrite existsb_lookup.
    by setoid_rewrite subPopList_at_lookup; setoid_rewrite bool_decide_eq_true. }
  split; [exact Hc |]. split; [exact Ho |]. split; [| split; [| split]].
  - intros v [idx Hidx]%Hc. apply Ho. by exists idx, v.
  - intros v w. unfold subPopList_contains. cbn.
    rewrite existsb_app. cbn. by rewrite orb_false_r.
  - intros v sp. unfold subPopList_overlap. cbn.
    rewrite existsb_app. cbn. by rewrite orb_false_r.
  - unfold subPopList_empty, subPopList_contains, subPopList_overlap.
    rewrite bool_decide_eq_true. intros Hlen v sp.
    by destruct (m_subPops l).
Qed.

(** *** vspSplitter: deactivation when nothing is activated *)

(** A splitter as its constructor leaves it, and any splitter after a
    [deactivate] that returned, records no activated subpopulation:
    [deactivate(InvalidSubPopID)] then returns and changes nothing, and
    [deactivate] of every other subpopulation throws the [RuntimeError].
    In particular a second [deactivate] of an activated subpopulation
    throws. *)
Theorem deactivate_without_activation :
  (∀ (names : list string) (sp : Z),
     deactivate (sexSplitter names) InvalidSubPopID = Ok (sexSplitter names) ∧
     deactivate (affectionSplitter names) InvalidSubPopID = Ok (affectionSplitter names) ∧
     (sp ≠ InvalidSubPopID →
      deactivate (sexSplitter names) sp =
        Throw (RuntimeError "Deactivate non-activated virtual subpopulation.") ∧
      deactivate (affectionSplitter names) sp =
        Throw (RuntimeError "Deactivate non-activated virtual subpopulation."))) ∧
  (∀ (s s' : vspSplitter) (sp : Z),
     deactivate s sp = Ok s' →
     deactivate s' InvalidSubPopID = Ok s' ∧
     ∀ sp', sp' ≠ InvalidSubPopID →
       deactivate s' sp' =
         Throw (RuntimeError "Deactivate non-activated virtual subpopulation.")).
Proof using Type.
  split.
  - intros names sp. split; [apply (deactivate_match (sexSplitter names)) |].
    split; [apply (deactivate_match (affectionSplitter names)) |].
    intros Hne. split; by apply deactivate_mismatch.
  - intros s s' sp. unfold deactivate at 1.
    destruct (DBG_FAILIF _ _) as [[]|e|]; cbn; [| done..].
    intros [= <-]. split.
    + exact (deactivate_match (set_activated InvalidSubPopID s)).
    + intros sp' Hne. by apply deactivate_mismatch.
Qed.

(** *** Selectors: what the constructors accept and return *)

Lemma accepted_clone (op : baseOperator) : accepted_operator op → clone op = Ok op.
Proof using Type. intros [_ Hml]. destruct op; cbn in *; tauto. Qed.

(** The loop returns exactly for accepted operators, with a copy of each
    pushed in order. *)
Lemma mlSelector_push_returns (sels acc m : list baseOperator) :
  mlSelector_push sels acc = Ok m ↔ Forall accepted_operator sels ∧ m = acc ++ sels.
Proof using Type.
  revert acc. induction sels as [|op sels IH]; intros acc; cbn.
  - rewrite app_nil_r. split.
    + intros [= <-]. by split.
    + by intros [_ ->].
  - destruct (substr (__repr__ op) 10 8) as [tag|e|] eqn:Etag; cbn.
    + case_bool_decide as Htag; cbn.
      * subst tag. destruct (clone op) as [c|e|] eqn:Eclone; cbn.
        -- assert (¬ is_mlSelector op ∧ c = op) as [Hml ->].
           { destruct op; cbn in Eclone; try discriminate;
               injection Eclone as <-; (split; [intros [] | reflexivity]). }
           rewrite IH, Forall_cons, <- app_assoc. cbn. split.
           ++ intros [Hf ->]. by repeat split.
           ++ by intros [[_ Hf] ->].
        -- split; [done |]. intros [[[_ Hml] _]%Forall_cons _].
           destruct op; cbn in Eclone; try discriminate. by destruct Hml.
        -- by apply clone_defined in Eclone.
      * split; [done |]. intros [[[Hk _] _]%Forall_cons _]. congruence.
    + split; [done |]. intros [[[Hk _] _]%Forall_cons _]. congruence.
    + by apply substr_defined in Etag.
Qed.

(** The constructor of [mlSelector] returns exactly when the list is not
    empty and every operator passes the check on its [__repr__] and is no
    [mlSelector]; it then holds the operators unchanged and in order. The
    mode is stored without any check, so the outcome is the same for
    every mode. What it returns never holds an [mlSelector] and never an
    empty list. *)
Theorem mlSelector_new_returns_iff (sels : list baseOperator) (mode : Z) :
  (∀ op, mlSelector_new sels mode = Ok op ↔
         sels ≠ [] ∧ Forall accepted_operator sels ∧ op = mlSelector sels mode) ∧
  (∀ op, mlSelector_new sels mode = Ok op →
         ∀ mode', mlSelector_new sels mode' = Ok (mlSelector sels mode')) ∧
  (∀ m mode', mlSelector_new sels mode = Ok (mlSelector m mode') →
              m ≠ [] ∧ Forall (λ c, ¬ is_mlSelector c) m).
Proof using Type.
  assert (Hiff : ∀ md op, mlSelector_new sels md = Ok op ↔
            sels ≠ [] ∧ Forall accepted_operator sels ∧ op = mlSelector sels md).
  { intros md op. unfold mlSelector_new. case_bool_decide as Hlen; cbn -[mlSelector_push].
    - apply length_zero_iff_nil in Hlen. subst sels. split; [done | by intros [? _]].
    - assert (sels ≠ []) as Hne by (by intros ->).
      destruct (mlSelector_push sels []) as [m|e|] eqn:Epush; cbn.
      + apply mlSelector_push_returns in Epush as [Hacc ->]. cbn.
        split; [intros [= <-] | intros (_ & _ & ->)]; done.
      + split; [done |]. intros (_ & Hacc & _).
        assert (mlSelector_push sels [] = Ok ([] ++ sels)) as Hok
          by (by apply mlSelector_push_returns).
        congruence.
      + split; [done |]. intros (_ & Hacc & _).
        assert (mlSelector_push sels [] = Ok ([] ++ sels)) as Hok
          by (by apply mlSelector_push_returns).
        congruence. }
  split; [apply Hiff |]. split.
  - intros op (Hne & Hacc & _)%Hiff mode'. by apply Hiff.
  - intros m mode' (Hne & Hacc & [= -> _])%Hiff. split; [done |].
    eapply Forall_impl; [exact Hacc |]. by intros c [_ Hml].
Qed.

(** How the constructors compose: every selector that the constructors
    of [maSelector] and [pySelector] return, like [selector] and
    [mapSelector], is accepted as a child by the constructor of
    [mlSelector]; whatever the constructor of [mlSelector] returns is
    rejected as a child, at any place of any list. *)
Theorem selector_constructors_compose (mode : Z) :
  (∀ loci fitness wildtype op,
     maSelector_new loci fitness wildtype = Ok op →
     mlSelector_new [op] mode = Ok (mlSelector [op] mode)) ∧
  (∀ loci func op,
     pySelector_new loci func = Ok op →
     mlSelector_new [op] mode = Ok (mlSelector [op] mode)) ∧
  (∀ loci dict phase,
     mlSelector_new [selector; mapSelector loci dict phase] mode =
       Ok (mlSelector [selector; mapSelector loci dict phase] mode)) ∧
  (∀ sels mode' op before after,
     mlSelector_new sels mode' = Ok op →
     throws (mlSelector_new (before ++ op :: after) mode)).
Proof using Type.
  assert (Hplain : ∀ op, plain_selector op →
            mlSelector_new [op] mode = Ok (mlSelector [op] mode)).
  { intros op Hop. unfold mlSelector_new. cbn -[mlSelector_push].
    by rewrite mlSelector_push_plain by (by constructor). }
  split; [| split; [| split]].
  - intros loci fitness wildtype op. unfold maSelector_new.
    destruct (pow_double _ _) as [p|e|]; cbn; [| done..].
    destruct (static_cast_UINT p) as [n|e|]; cbn; [| done..].
    destruct (DBG_ASSERT _ _) as [[]|e|]; cbn; [| done..].
    intros [= <-]. by apply Hplain.
  - intros loci func op. unfold pySelector_new.
    destruct (negb _); [done |].
    destruct (DBG_FAILIF _ _) as [[]|e|]; cbn; [| done..].
    intros [= <-]. by apply Hplain.
  - intros loci dict phase. unfold mlSelector_new. cbn -[mlSelector_push].
    by rewrite mlSelector_push_plain by (by repeat constructor).
  - intros sels mode' op before after Hop. unfold mlSelector_new in *.
    destruct (DBG_FAILIF (bool_decide (length sels = 0%nat)) _) as [[]|e|];
      cbn -[mlSelector_push] in Hop; [| done..].
    destruct (mlSelector_push sels []) as [m|e|]; cbn in Hop; [| done..].
    injection Hop as <-.
    rewrite bool_decide_eq_false_2 by (rewrite length_app; cbn; lia).
    cbn -[mlSelector_push].
    destruct (mlSelector_push_nested (before ++ mlSelector m mode' :: after) [])
      as [e ->]; [| apply throws_Throw].
    apply Exists_app. right. by left.
Qed.

(** Which exception the constructor of [mlSelector] throws: after
    operators that are accepted, the first operator that is not decides.
    An operator whose [__repr__] has fewer than 10 characters makes
    [substr] throw [std::out_of_range]; one whose characters 10 to 17 do
    not read [selector] gives the [ValueError] that quotes its
    [__repr__]; an [mlSelector] gives the [ValueError] of its [clone]. *)
Theorem mlSelector_new_first_rejected
    (before after : list baseOperator) (s : baseOperator) (mode : Z) :
  Forall accepted_operator before →
  ((String.length (__repr__ s) < 10)%nat →
   mlSelector_new (before ++ s :: after) mode = Throw std_out_of_range) ∧
  ((10 ≤ String.length (__repr__ s))%nat →
   String.substring 10 8 (__repr__ s) ≠ "selector" →
   mlSelector_new (before ++ s :: after) mode =
     Throw (ValueError ("Expecting a list of fitness calculator. Given " +:+ __repr__ s))) ∧
  (is_mlSelector s →
   mlSelector_new (before ++ s :: after) mode =
     Throw (ValueError "Multi-loci selector can not be nested.")).
Proof using Type.
  intros Hbefore.
  assert (Hpush : ∀ r, (∀ acc, mlSelector_push (s :: after) acc = Throw r) →
            mlSelector_new (before ++ s :: after) mode = Throw r).
  { intros r Hs. unfold mlSelector_new.
    rewrite bool_decide_eq_false_2 by (rewrite length_app; cbn; lia).
    cbn -[mlSelector_push].
    assert (∀ acc, mlSelector_push (before ++ s :: after) acc = Throw r) as ->; [| done].
    induction Hbefore as [|op before [Htag Hml] _ IH]; intros acc; [apply Hs |].
    cbn. rewrite Htag. cbn.
    rewrite accepted_clone by done. cbn. apply IH. }
  split; [| split].
  - intros Hshort. apply Hpush. intros acc. cbn. unfold substr.
    by rewrite bool_decide_eq_true_2.
  - intros Hlong Htag. apply Hpush. intros acc. cbn. unfold substr.
    rewrite bool_decide_eq_false_2 by lia. cbn.
    by rewrite bool_decide_eq_false_2.
  - intros Hml. apply Hpush. intros acc. cbn.
    rewrite mlSelector_tag by done. cbn. by rewrite clone_mlSelector_throws.
Qed.

Lemma pow3_inj (a b : nat) : 3 ^ Z.of_nat a = 3 ^ Z.of_nat b → a = b.
Proof using Type.
  forget_cfg. intros H. apply Nat2Z.inj. by apply (Z.pow_inj_r 3); [lia.. |].
Qed.

(** What the constructor of [maSelector] accepts for a list of [k] loci
    whose [3^k] is a [UINT] (and at most 2^53, where [pow] is exact): it
    returns exactly when the table has [3^k] entries, holding the three
    arguments unchanged, and throws its [ValueError] for every other
    length and nothing else. So an accepted table is never empty and fits
    no other such number of loci, and the wildtype alleles and the loci
    themselves are not examined: only the two lengths decide. *)
Theorem maSelector_new_accepted_table
    (loci : list Z) (fitness : list Q) (wildtype : list Z) :
  3 ^ Z.of_nat (length loci) ≤ UINT_MAX →
  3 ^ Z.of_nat (length loci) ≤ 2 ^ 53 →
  (∀ op, maSelector_new loci fitness wildtype = Ok op ↔
     Z.of_nat (length fitness) = 3 ^ Z.of_nat (length loci) ∧
     op = maSelector loci fitness wildtype) ∧
  (Z.of_nat (length fitness) ≠ 3 ^ Z.of_nat (length loci) →
   maSelector_new loci fitness wildtype =
     Throw (ValueError "Please specify fitness for each combination of genotype.")) ∧
  (∀ op, maSelector_new loci fitness wildtype = Ok op → fitness ≠ []) ∧
  (∀ loci' wildtype' op op',
     3 ^ Z.of_nat (length loci') ≤ UINT_MAX →
     3 ^ Z.of_nat (length loci') ≤ 2 ^ 53 →
     maSelector_new loci fitness wildtype = Ok op →
     maSelector_new loci' fitness wildtype' = Ok op' →
     length loci' = length loci) ∧
  (∀ loci' fitness' wildtype',
     length loci' = length loci → length fitness' = length fitness →
     (∃ op, maSelector_new loci fitness wildtype = Ok op) →
     maSelector_new loci' fitness' wildtype' = Ok (maSelector loci' fitness' wildtype')) ∧
  (∀ e, maSelector_new loci fitness wildtype = Throw e →
     e = ValueError "Please specify fitness for each combination of genotype.").
Proof using Type.
  forget_cfg. intros HUINT Hdouble.
  assert (Hiff : ∀ op, maSelector_new loci fitness wildtype = Ok op ↔
            Z.of_nat (length fitness) = 3 ^ Z.of_nat (length loci) ∧
            op = maSelector loci fitness wildtype).
  { intros op. rewrite maSelector_new_in_range by done.
    case_bool_decide as Hlen.
    - split; [by intros [= <-] | by intros [_ ->]].
    - split; [done | by intros [? _]]. }
  split; [exact Hiff |]. split; [| split; [| split; [| split]]].
  - intros Hne. rewrite maSelector_new_in_range by done.
    by rewrite bool_decide_eq_false_2.
  - intros op [Hlen _]%Hiff ->. cbn in Hlen.
    assert (0 < 3 ^ Z.of_nat (length loci)) by (apply Z.pow_pos_nonneg; lia). lia.
  - intros loci' wildtype' op op' HUINT' Hdouble' [Hlen _]%Hiff Hok'.
    rewrite maSelector_new_in_range in Hok' by done.
    case_bool_decide as Hlen'; [| done].
    apply pow3_inj. congruence.
  - intros loci' fitness' wildtype' Hl Hf [op [Hlen _]%Hiff].
    rewrite maSelector_new_in_range by (by rewrite Hl).
    rewrite bool_decide_eq_true_2; [done |]. by rewrite Hl, Hf.
  - intros e. rewrite maSelector_new_in_range by done.
    case_bool_decide; [done |]. by intros [= <-].
Qed.

(** The constructor of [pySelector] returns exactly for a callable object
    and a list of loci that is not empty, and then holds both unchanged.
    An object that is not callable is reported first, whatever the loci. *)
Theorem pySelector_new_checks (loci : list Z) (func : PyObject) :
  (PyCallable_Check func = false →
   pySelector_new loci func =
     Throw (ValueError "Passed variable is not a callable python function.")) ∧
  (PyCallable_Check func = true → loci = [] →
   pySelector_new loci func = Throw (ValueError "Please specify susceptibility loci")) ∧
  (∀ op, pySelector_new loci func = Ok op ↔
         PyCallable_Check func = true ∧ loci ≠ [] ∧ op = pySelector loci func).
Proof using Type.
  unfold pySelector_new. destruct (PyCallable_Check func); cbn.
  - split; [done |]. split; [by intros _ -> |].
    intros op. case_bool_decide as Hlen; cbn.
    + apply length_zero_iff_nil in Hlen. subst loci.
      split; [done | by intros (_ & ? & _)].
    + assert (loci ≠ []) by (by intros ->).
      split; [by intros [= <-] | by intros (_ & _ & ->)].
  - split; [done |]. split; [done |]. intros op. split; [done | by intros [? _]].
Qed.

End simuPOP.

(** ** The theorems at a concrete configuration

    [InvalidSubPopID] is -1 and [UINT] has 32 bits. *)

Lemma vspID_constructors_normalize_witness :
  -1 < 0 ∧
  valid (-1) (vspID_new (-1) 2 (-5)) = true ∧
  virtualSubPop (vspID_new (-1) 2 (-5)) = -1 ∧
  vspID_from_vectori (-1) [0; 1; 2] =
    Throw (ValueError "VSP should be specified as a subPop and virtualSubPop ID pair") ∧
  ∃ v, vspID_from_vectori (-1) [3] = Ok v ∧ subPop v = 3 ∧ virtualSubPop v = -1.
Proof.
  assert (H : -1 < 0) by lia.
  destruct (vspID_constructors_normalize (-1) H) as (Hnew & Hlong & Hshort & _).
  destruct (Hnew 2 (-5)) as (_ & Hvsp & _ & _ & Hvalid & _).
  destruct (Hshort [3]) as (v & Hv & _ & Hunset & Hsp & _); [cbn; lia |].
  split; [exact H |]. split; [apply Hvalid; lia |]. split; [apply Hvsp; lia |].
  split; [apply Hlong; cbn; lia |].
  exists v. split; [exact Hv |]. split; [by apply Hsp |].
  apply Hunset. by intros (x & ? & _).
Defined.

Lemma deactivate_requires_activated_subPop_witness :
  deactivate (-1) (activate (-1) (sexSplitter (-1) []) [[a_male; a_female]] 0 1).1 2 =
    Throw (RuntimeError "Deactivate non-activated virtual subpopulation.") ∧
  ∃ s', deactivate (-1)
          (activate (-1) (sexSplitter (-1) []) [[a_male; a_female]] 0 1).1 0 = Ok s' ∧
        activatedSubPop s' = -1.
Proof.
  destruct (deactivate_requires_activated_subPop (-1)
              (activate (-1) (sexSplitter (-1) []) [[a_male; a_female]] 0 1).1 2)
    as (_ & Hthrow & _ & _).
  destruct (deactivate_requires_activated_subPop (-1)
              (activate (-1) (sexSplitter (-1) []) [[a_male; a_female]] 0 1).1 0)
    as (_ & _ & Hok & _).
  split; [by apply Hthrow |].
  destruct Hok as (s' & Hs' & Hact & _); [done |]. by exists s'.
Defined.

Lemma productSplitter_mixed_radix_witness :
  65535 ≤ 4294967295 ∧
  productSplitter_numVirtualSubPop 4294967295
    (productSplitter_new (-1) [sexSplitter (-1) []; three_way_splitter (-1)] []) = 6 ∧
  getVSPs (productSplitter_new (-1) [sexSplitter (-1) []; three_way_splitter (-1)] []) 4
    = [1; 1] ∧
  mixed_radix [2; 3]
    (getVSPs (productSplitter_new (-1) [sexSplitter (-1) []; three_way_splitter (-1)] []) 4)
    = 4.
Proof.
  assert (H : 65535 ≤ 4294967295) by lia.
  destruct (productSplitter_mixed_radix (-1) 4294967295 H) as (Hgen & Hex & _).
  destruct (Hgen [sexSplitter (-1) []; three_way_splitter (-1)] []) as (Hnum & Hv).
  { repeat constructor; cbn; lia. }
  { cbn; lia. }
  destruct (Hv 4) as (_ & Hval & _); [cbn; lia |].
  destruct (Hex (sexSplitter (-1) []) (three_way_splitter (-1)) []) as (_ & Hds); [done.. |].
  split; [exact H |]. split; [exact Hnum |]. split; [exact Hds | exact Hval].
Defined.

Lemma combinedSplitter_concatenates_witness :
  ∃ cs, combinedSplitter_new (-1) [sexSplitter (-1) []; affectionSplitter (-1) []]
          [[0; 2]; [1; 3]] [] = Ok cs ∧
        combinedSplitter_numVirtualSubPop 4294967295 cs = 6 ∧
        m_vspMap cs !! 3%nat = Some [(1, 1)] ∧
        (combinedSplitter_contains (-1) cs [[a_male; a_female]] 0 (vspID_new (-1) 0 5) = true ↔
         ∃ k, k ∈ [1; 3] ∧
              combinedSplitter_contains (-1) cs [[a_male; a_female]] 0 (vspID_new (-1) 0 k)
                = true).
Proof.
  destruct (combinedSplitter_concatenates (-1) 4294967295
              [sexSplitter (-1) []; affectionSplitter (-1) []] [[0; 2]; [1; 3]] [])
    as (cs & Hcs & Hnum & _ & Horig & _ & Hunion).
  { repeat constructor; cbn; lia. }
  { cbn; lia. }
  { repeat constructor; cbn; lia. }
  exists cs. split; [exact Hcs |]. split; [exact Hnum |].
  destruct (Horig 1%nat (affectionSplitter (-1) []) 1) as (_ & Hmap & _);
    [done | cbn; lia |].
  split; [exact Hmap |].
  exact (Hunion 1%nat [1; 3] eq_refl [[a_male; a_female]] 0 0).
Defined.

Lemma mlSelector_new_forbids_nesting_witness :
  throws (mlSelector_new
            [selector; mlSelector [maSelector [0] [1%Q; 1%Q; 1%Q] [0]] SEL_Additive]
            SEL_Multiplicative) ∧
  mlSelector_new [mapSelector [0] ∅ false; pySelector [1] (mk_PyObject true)]
    SEL_Additive =
    Ok (mlSelector [mapSelector [0] ∅ false; pySelector [1] (mk_PyObject true)]
          SEL_Additive).
Proof.
  split.
  - destruct (mlSelector_new_forbids_nesting SEL_Multiplicative) as (_ & Hnested & _).
    apply Hnested. right. left. exact I.
  - destruct (mlSelector_new_forbids_nesting SEL_Additive) as (_ & _ & _ & Hplain).
    apply Hplain; [done |]. by repeat constructor.
Defined.

Lemma mlSelector_clone_always_throws_witness :
  mlSelector_new [maSelector [0] [1%Q; 1%Q; 1%Q] [0]] SEL_Multiplicative =
    Ok (mlSelector [maSelector [0] [1%Q; 1%Q; 1%Q] [0]] SEL_Multiplicative) ∧
  clone (mlSelector [maSelector [0] [1%Q; 1%Q; 1%Q] [0]] SEL_Multiplicative) =
    Throw (ValueError "Multi-loci selector can not be nested.").
Proof.
  split; [reflexivity |].
  destruct mlSelector_clone_always_throws as (_ & Hnew & _).
  exact (Hnew [maSelector [0] [1%Q; 1%Q; 1%Q] [0]] SEL_Multiplicative _ eq_refl).
Defined.


Lemma mlSelector_additive_fitness_witness :
  (∃ r, indFitness first_entry
          (mlSelector [maSelector [0] [(7 # 10)%Q] [0]; maSelector [1] [(6 # 10)%Q] [0]]
             SEL_Additive) a_male 0 = Ok r ∧ (r == 3 # 10)%Q) ∧
  (∃ r, indFitness first_entry
          (mlSelector [maSelector [0] [(7 # 10)%Q] [0]; maSelector [1] [(6 # 10)%Q] [0];
                       maSelector [2] [(1 # 10)%Q] [0]]
             SEL_Additive) a_male 0 = Ok r ∧ (r == 0)%Q).
Proof.
  destruct (mlSelector_additive_fitness first_entry a_male 0) as (_ & _ & Hex).
  exact (Hex (maSelector [0] [(7 # 10)%Q] [0]) (maSelector [1] [(6 # 10)%Q] [0])
             (maSelector [2] [(1 # 10)%Q] [0]) eq_refl eq_refl eq_refl).
Defined.

Lemma mlSelector_multiplicative_fitness_witness :
  ∃ r, indFitness first_entry
         (mlSelector [maSelector [0] [(8 # 10)%Q] [0]; maSelector [1] [(5 # 10)%Q] [0]]
            SEL_Multiplicative) a_male 0 = Ok r ∧ (r == 4 # 10)%Q.
Proof.
  destruct (mlSelector_multiplicative_fitness first_entry a_male 0) as (_ & _ & Hex).
  exact (Hex (maSelector [0] [(8 # 10)%Q] [0]) (maSelector [1] [(5 # 10)%Q] [0])
             eq_refl eq_refl).
Defined.

Lemma vspID_eq_constructed_witness :
  -1 < 0 ∧
  vspID_eq (vspID_new (-1) (-3) 2) (vspID_new (-1) (-8) 2) = true ∧
  vspID_eq (vspID_new (-1) 1 2) (vspID_new (-1) 1 (-1)) ≠ true.
Proof.
  assert (H : -1 < 0) by lia.
  destruct (vspID_eq_constructed (-1) H) as [_ Hnew].
  split; [exact H |]. split.
  - apply Hnew. split; [right | left]; lia.
  - intros [_ Hv]%Hnew. lia.
Defined.

Lemma vspID_rebuilt_from_accessors_witness :
  ∃ v, vspID_from_vectori (-1) [4; -2] = Ok v ∧
       vspID_new (-1) (subPop v) (virtualSubPop v) = v ∧
       vspID_from_vectori (-1) [subPop v; virtualSubPop v] = Ok v.
Proof.
  exists (mk_vspID 4 (-1)).
  destruct (vspID_rebuilt_from_accessors (-1)) as [_ Hlist].
  split; [reflexivity |].
  exact (Hlist [4; -2] (mk_vspID 4 (-1)) eq_refl).
Defined.

Lemma subPopList_index_push_back_witness :
  subPopList_at (mk_subPopList [vspID_new (-1) 0 1] false) 1 =
    Throw (IndexError "Index out of range.") ∧
  subPopList_at
    (subPopList_push_back (mk_subPopList [vspID_new (-1) 0 1] false) (vspID_new (-1) 2 (-1)))
    1 = Ok (vspID_new (-1) 2 (-1)) ∧
  ∃ e, subPopList_at (mk_subPopList [vspID_new (-1) 0 1] false) 0 = Ok e ∧
       subPopList_at
         (subPopList_push_back (mk_subPopList [vspID_new (-1) 0 1] false)
            (vspID_new (-1) 2 (-1))) 0 = Ok e.
Proof.
  destruct (subPopList_index_push_back
              (mk_subPopList [vspID_new (-1) 0 1] false) (vspID_new (-1) 2 (-1)))
    as (Hout & Hin & Hlast & _).
  split; [apply Hout; cbn; lia |]. split; [exact Hlast |].
  apply Hin. cbn. lia.
Defined.

Lemma subPopList_contains_overlap_witness :
  subPopList_contains (mk_subPopList [vspID_new (-1) 0 1; vspID_new (-1) 2 (-1)] false)
    (vspID_new (-1) 2 (-5)) = true ∧
  subPopList_overlap (mk_subPopList [vspID_new (-1) 0 1; vspID_new (-1) 2 (-1)] false) 2
    = true.
Proof.
  destruct (subPopList_contains_overlap
              (mk_subPopList [vspID_new (-1) 0 1; vspID_new (-1) 2 (-1)] false))
    as (Hc & _ & Hco & _).
  assert (Hin : subPopList_contains
                  (mk_subPopList [vspID_new (-1) 0 1; vspID_new (-1) 2 (-1)] false)
                  (vspID_new (-1) 2 (-5)) = true).
  { apply Hc. by exists 1%nat. }
  split; [exact Hin |]. exact (Hco _ Hin).
Defined.

Lemma deactivate_without_activation_witness :
  ∃ s', deactivate (-1) (activate (-1) (sexSplitter (-1) []) [[a_male; a_female]] 0 1).1 0
          = Ok s' ∧
        deactivate (-1) s' 0 =
          Throw (RuntimeError "Deactivate non-activated virtual subpopulation.") ∧
        deactivate (-1) s' (-1) = Ok s'.
Proof.
  exists (sexSplitter (-1) []).
  destruct (deactivate_without_activation (-1)) as [_ Hafter].
  destruct (Hafter (activate (-1) (sexSplitter (-1) []) [[a_male; a_female]] 0 1).1
              (sexSplitter (-1) []) 0 eq_refl) as [Hinvalid Hother].
  split; [reflexivity |]. split; [apply Hother; lia | exact Hinvalid].
Defined.

Lemma mlSelector_new_returns_iff_witness :
  mlSelector_new [selector; otherOperator "<simuPOP::selector of another kind>"] 7 =
    Ok (mlSelector [selector; otherOperator "<simuPOP::selector of another kind>"] 7).
Proof.
  destruct (mlSelector_new_returns_iff
              [selector; otherOperator "<simuPOP::selector of another kind>"] 7)
    as (Hiff & _).
  apply Hiff. split; [done |]. split; [| done].
  repeat constructor; intros [].
Defined.

Lemma selector_constructors_compose_witness :
  mlSelector_new [maSelector [5] [1%Q; (9 # 10)%Q; (8 # 10)%Q] [0]] SEL_Additive =
    Ok (mlSelector [maSelector [5] [1%Q; (9 # 10)%Q; (8 # 10)%Q] [0]] SEL_Additive) ∧
  throws (mlSelector_new [selector; mlSelector [selector] SEL_Additive] SEL_Additive).
Proof.
  destruct (selector_constructors_compose 4294967295 SEL_Additive)
    as (Hma & _ & _ & Hml).
  split.
  - exact (Hma [5] [1%Q; (9 # 10)%Q; (8 # 10)%Q] [0] _ eq_refl).
  - exact (Hml [selector] SEL_Additive (mlSelector [selector] SEL_Additive)
               [selector] [] eq_refl).
Defined.

Lemma mlSelector_new_first_rejected_witness :
  Forall accepted_operator [selector] ∧
  mlSelector_new [selector; otherOperator "<op>"; mlSelector [] 1] 1 =
    Throw std_out_of_range ∧
  mlSelector_new [selector; otherOperator "<simuPOP::migrator>"; mlSelector [] 1] 1 =
    Throw (ValueError
             ("Expecting a list of fitness calculator. Given " +:+ "<simuPOP::migrator>")).
Proof.
  assert (H : Forall accepted_operator [selector]).
  { repeat constructor. intros []. }
  split; [exact H |]. split.
  - apply (mlSelector_new_first_rejected [selector] [mlSelector [] 1]
             (otherOperator "<op>") 1 H). cbn. lia.
  - apply (mlSelector_new_first_rejected [selector] [mlSelector [] 1]
             (otherOperator "<simuPOP::migrator>") 1 H); [cbn; lia | done].
Defined.

Lemma maSelector_new_accepted_table_witness :
  3 ^ Z.of_nat (length [5]) ≤ 4294967295 ∧
  3 ^ Z.of_nat (length [5]) ≤ 2 ^ 53 ∧
  maSelector_new 4294967295 [5] [1%Q; (9 # 10)%Q; (8 # 10)%Q] [0] =
    Ok (maSelector [5] [1%Q; (9 # 10)%Q; (8 # 10)%Q] [0]) ∧
  maSelector_new 4294967295 [5] [1%Q; (9 # 10)%Q] [0] =
    Throw (ValueError "Please specify fitness for each combination of genotype.") ∧
  maSelector_new 4294967295 [5] [1%Q; (9 # 10)%Q; (8 # 10)%Q; (7 # 10)%Q] [0] =
    Throw (ValueError "Please specify fitness for each combination of genotype.") ∧
  maSelector_new 4294967295 [7] [(1 # 2)%Q; (1 # 2)%Q; (1 # 2)%Q] [] =
    Ok (maSelector [7] [(1 # 2)%Q; (1 # 2)%Q; (1 # 2)%Q] []).
Proof.
  assert (H1 : 3 ^ Z.of_nat (length [5]) ≤ 4294967295) by (cbn; lia).
  assert (H2 : 3 ^ Z.of_nat (length [5]) ≤ 2 ^ 53) by (cbn; lia).
  destruct (maSelector_new_accepted_table 4294967295 [5]
              [1%Q; (9 # 10)%Q; (8 # 10)%Q] [0] H1 H2) as (Hiff & _ & _ & _ & Hlen & _).
  destruct (maSelector_new_accepted_table 4294967295 [5]
              [1%Q; (9 # 10)%Q] [0] H1 H2) as (_ & Htwo & _).
  destruct (maSelector_new_accepted_table 4294967295 [5]
              [1%Q; (9 # 10)%Q; (8 # 10)%Q; (7 # 10)%Q] [0] H1 H2) as (_ & Hfour & _).
  assert (Hthree : maSelector_new 4294967295 [5] [1%Q; (9 # 10)%Q; (8 # 10)%Q] [0] =
                   Ok (maSelector [5] [1%Q; (9 # 10)%Q; (8 # 10)%Q] [0])).
  { apply Hiff. split; reflexivity. }
  split; [exact H1 |]. split; [exact H2 |]. split; [exact Hthree |].
  split; [apply Htwo; cbn; lia |]. split; [apply Hfour; cbn; lia |].
  apply Hlen; [reflexivity.. |]. eexists. exact Hthree.
Defined.

Lemma pySelector_new_checks_witness :
  pySelector_new [] (mk_PyObject false) =
    Throw (ValueError "Passed variable is not a callable python function.") ∧
  pySelector_new [] (mk_PyObject true) =
    Throw (ValueError "Please specify susceptibility loci") ∧
  pySelector_new [3] (mk_PyObject true) = Ok (pySelector [3] (mk_PyObject true)).
Proof.
  split; [| split].
  - by apply (pySelector_new_checks [] (mk_PyObject false)).
  - by apply (pySelector_new_checks [] (mk_PyObject true)).
  - by apply (pySelector_new_checks [3] (mk_PyObject true)).
Defined.
